(** * express-starter: request pipeline, token service, RBAC and domain services

    A shallow embedding of the TypeScript sources.  Every [async] function is
    embedded as a function from the state of its backing store (database or
    cache) to a completion (a returned value or a thrown error) and the new
    state of the store; [try]/[catch] blocks are written out with
    [try_catch]. *)

From Stdlib Require Import ZArith String List Bool Lia Sorted Permutation.
From stdpp Require Import base gmap strings list fin_maps pretty.

Set Warnings "-register-all".
Local Open Scope string_scope.
Local Open Scope Z_scope.

(** ** JavaScript values shared by all modules *)

(** The JSON documents the handlers send with [res.json(...)]. *)
Inductive Json : Type :=
| JNull
| JBool (b : bool)
| JNum (n : Z)
| JStr (s : string)
| JArr (items : list Json)
| JObj (fields : list (string * Json)).

(** A JavaScript [Error]; only its [message] is ever inspected. *)
Record JsError : Type := mkError { message : string }.

(** Completion of a JavaScript call: it returns or it throws. *)
Inductive Completion (A : Type) : Type :=
| Return (a : A)
| Throw (e : JsError).
Arguments Return {A} a.
Arguments Throw {A} e.

(** [try { body } catch (e) { handler(e) }] on completions. *)
Definition try_catch {A : Type} (body : Completion A) (handler : JsError -> Completion A)
  : Completion A :=
  match body with
  | Return a => Return a
  | Throw e => handler e
  end.

(** The value of a completion that returned. *)
Definition returned {A : Type} (c : Completion A) : option A :=
  match c with
  | Return a => Some a
  | Throw _ => None
  end.

(** What an Express middleware or handler did with the request: it either
    called [next()] or ended the request with [res.status(code).json(body)]. *)
Inductive Outcome : Type :=
| Next
| Send (code : Z) (body : Json).

(** The envelope [{ success, message, data }] used by every handler. *)
Definition envelope (success : bool) (msg : string) (data : Json) : Json :=
  JObj [("success", JBool success); ("message", JStr msg); ("data", data)].

(** [xs.join(sep)] on an array of strings. *)
Fixpoint join (sep : string) (xs : list string) : string :=
  match xs with
  | [] => ""
  | [x] => x
  | x :: rest => x ++ sep ++ join sep rest
  end.

(** [!s] on a string: only the empty string is falsy. *)
Definition falsy (s : string) : bool := bool_decide (s = "").

(** Modelled from the spec: the module [@/lib/http-status-codes] is imported by
    the sources but is not part of them; the codes are the ones the spec and
    the route tables name (200, 201, 401 unauthenticated, 403 forbidden, 404,
    409, 422 and 500 internal error). *)
Module httpStatusCodes.
Definition OK : Z := 200.
Definition CREATED : Z := 201.
Definition UNAUTHORIZED : Z := 401.
Definition FORBIDDEN : Z := 403.
Definition NOT_FOUND : Z := 404.
Definition CONFLICT : Z := 409.
Definition UNPROCESSABLE_ENTITY : Z := 422.
Definition INTERNAL_SERVER_ERROR : Z := 500.
End httpStatusCodes.

(** ** JWT Utility Module ([src/lib/jwt.ts]) *)

Module Jwt.

(** [interface JWTPayload { userId: string; email: string }] *)
Record JWTPayload : Type := mkPayload { userId : string; email : string }.

(** [interface TokenPair] *)
Record TokenPair : Type := mkTokenPair {
  access_token : string;
  refresh_token : string;
  token_type : string;
  expires_in : string
}.

Section WithLibrary.

(** The [jsonwebtoken] package and the validated environment are external to
    the repository: [jwt.sign(payload, secret, {expiresIn})] returns a token,
    [jwt.verify(token, secret)] returns the decoded payload or throws
    (TokenExpiredError, JsonWebTokenError, NotBeforeError). *)
Variable jwt_sign : JWTPayload -> string -> string -> string.
Variable jwt_verify : string -> string -> Completion JWTPayload.
Variable JWT_SECRET JWT_EXPIRES_IN JWT_REFRESH_SECRET JWT_REFRESH_EXPIRES_IN : string.

Definition generateAccessToken (payload : JWTPayload) : string :=
  jwt_sign payload JWT_SECRET JWT_EXPIRES_IN.

Definition generateRefreshToken (payload : JWTPayload) : string :=
  jwt_sign payload JWT_REFRESH_SECRET JWT_REFRESH_EXPIRES_IN.

Definition generateTokenPair (payload : JWTPayload) : TokenPair :=
  let access_token := generateAccessToken payload in
  let refresh_token := generateRefreshToken payload in
  {| access_token := access_token;
     refresh_token := refresh_token;
     token_type := "Bearer";
     expires_in := JWT_EXPIRES_IN |}.

(** [JWTPayload | null] is [option JWTPayload]; the function is embedded as a
    completion so that "does not throw" is a statement about its result. *)
Definition verifyAccessToken (token : string) : Completion (option JWTPayload) :=
  try_catch
    (match jwt_verify token JWT_SECRET with
     | Return decoded => Return (Some decoded)
     | Throw e => Throw e
     end)
    (fun _error => Return None).

Definition verifyRefreshToken (token : string) : Completion (option JWTPayload) :=
  try_catch
    (match jwt_verify token JWT_REFRESH_SECRET with
     | Return decoded => Return (Some decoded)
     | Throw e => Throw e
     end)
    (fun _error => Return None).

End WithLibrary.

End Jwt.

(** ** Asynchronous code over a backing store

    An [async] function that talks to a store of type [S] (the database behind
    the Prisma client, or the Redis server) takes the store's state and gives
    back a completion and the store's new state.  [await] is [bind]. *)

Definition Async (S A : Type) : Type := S -> Completion A * S.

Definition ret {S A : Type} (a : A) : Async S A := fun s => (Return a, s).

Definition throw {S A : Type} (e : JsError) : Async S A := fun s => (Throw e, s).

Definition bind {S A B : Type} (m : Async S A) (k : A -> Async S B) : Async S B :=
  fun s =>
    match m s with
    | (Return a, s') => k a s'
    | (Throw e, s') => (Throw e, s')
    end.

(** [try { body } catch (e) { handler(e) }] around awaited calls. *)
Definition try_await {S A : Type} (body : Async S A) (handler : JsError -> Async S A)
  : Async S A :=
  fun s =>
    match body s with
    | (Return a, s') => (Return a, s')
    | (Throw e, s') => handler e s'
    end.

Declare Scope async_scope.
Delimit Scope async_scope with async.
Notation "x <- c1 ;; c2" := (bind c1 (fun x => c2))
  (at level 100, c1 at next level, right associativity) : async_scope.
Notation "c1 ;;; c2" := (bind c1 (fun _ => c2))
  (at level 100, right associativity) : async_scope.

(** ** The persistence gateway: tables and the Prisma client *)

Module User.
Record t : Type := mk {
  id : string;
  name : string;
  email : string;
  password : string;
  email_verified_at : option Z;
  created_at : Z;
  updated_at : Z
}.
End User.

Module Role.
Record t : Type := mk {
  id : string;
  name : string;
  description : option string;
  created_at : Z;
  updated_at : Z
}.
End Role.

Module Permission.
Record t : Type := mk {
  id : string;
  name : string;
  description : option string;
  created_at : Z;
  updated_at : Z
}.
End Permission.

(** Junction rows.  Their surrogate [id] and [created_at] columns are filled
    in by the database and never read by the sources; they are left out. *)
Module UserRole.
Record t : Type := mk { user_id : string; role_id : string }.
End UserRole.

Module RolePermission.
Record t : Type := mk { role_id : string; permission_id : string }.
End RolePermission.

Record Db : Type := mkDb {
  tb_user : list User.t;
  tb_role : list Role.t;
  tb_permission : list Permission.t;
  tb_user_role : list UserRole.t;
  tb_role_permission : list RolePermission.t
}.

(** The Prisma client: the tables it reaches, and for each round trip still to
    come whether it fails ([true]: the call throws, the tables are untouched).
    An empty schedule is a healthy database. *)
Record Prisma : Type := mkPrisma { tables : Db; faults : list bool }.

Definition healthy (d : Db) : Prisma := {| tables := d; faults := [] |}.

Definition connection_error : JsError := mkError "Can't reach database server".

(** One awaited Prisma call. *)
Definition round_trip {A : Type} (run : Db -> Completion A * Db) : Async Prisma A :=
  fun p =>
    match faults p with
    | true :: rest => (Throw connection_error, {| tables := tables p; faults := rest |})
    | false :: rest =>
        let r := run (tables p) in (fst r, {| tables := snd r; faults := rest |})
    | [] =>
        let r := run (tables p) in (fst r, {| tables := snd r; faults := [] |})
    end.

Definition read_only {A : Type} (q : Db -> A) : Async Prisma A :=
  round_trip (fun d => (Return (q d), d)).

Definition eqs (a b : string) : bool := bool_decide (a = b).

Module prisma.

(** [userRole.findMany({ where: { user_id }, include: { role: { select: { name } } } })]:
    each matching junction row with the [name] of the role it references. *)
Definition userRole_findMany_role (user_id : string) : Async Prisma (list (UserRole.t * string)) :=
  read_only (fun d =>
    flat_map (fun ur =>
        map (fun r => (ur, Role.name r))
            (List.filter (fun r => eqs (Role.id r) (UserRole.role_id ur)) (tb_role d)))
      (List.filter (fun ur => eqs (UserRole.user_id ur) user_id) (tb_user_role d))).

(** The rows of [role_permissions] included under one role, each with the
    selected [name] of its permission. *)
Definition role_permissions_of (d : Db) (role_id : string) : list (RolePermission.t * string) :=
  flat_map (fun rp =>
      map (fun p => (rp, Permission.name p))
          (List.filter (fun p => eqs (Permission.id p) (RolePermission.permission_id rp))
             (tb_permission d)))
    (List.filter (fun rp => eqs (RolePermission.role_id rp) role_id) (tb_role_permission d)).

(** [userRole.findMany({ where: { user_id }, include: { role: { include:
    { role_permissions: { include: { permission: { select: { name } } } } } } } })] *)
Definition userRole_findMany_role_permissions (user_id : string)
  : Async Prisma (list (UserRole.t * (Role.t * list (RolePermission.t * string)))) :=
  read_only (fun d =>
    flat_map (fun ur =>
        map (fun r => (ur, (r, role_permissions_of d (Role.id r))))
            (List.filter (fun r => eqs (Role.id r) (UserRole.role_id ur)) (tb_role d)))
      (List.filter (fun ur => eqs (UserRole.user_id ur) user_id) (tb_user_role d))).

(** Rows as returned under [select]: a user without its password, a
    permission reduced to [{ id, name, description }]. *)
Record UserView : Type := mkUserView {
  uv_id : string;
  uv_name : string;
  uv_email : string;
  uv_email_verified_at : option Z;
  uv_created_at : Z;
  uv_updated_at : Z
}.

Definition select_user (u : User.t) : UserView :=
  {| uv_id := User.id u; uv_name := User.name u; uv_email := User.email u;
     uv_email_verified_at := User.email_verified_at u;
     uv_created_at := User.created_at u; uv_updated_at := User.updated_at u |}.

Record PermissionView : Type := mkPermissionView {
  pv_id : string;
  pv_name : string;
  pv_description : option string
}.

Definition select_permission (p : Permission.t) : PermissionView :=
  {| pv_id := Permission.id p; pv_name := Permission.name p;
     pv_description := Permission.description p |}.

(** [orderBy: { created_at: "desc" }]: newest first, rows with equal
    timestamps in table order. *)
Fixpoint insert_desc {A : Type} (stamp : A -> Z) (x : A) (rows : list A) : list A :=
  match rows with
  | [] => [x]
  | y :: rest =>
      if stamp y <=? stamp x then x :: y :: rest else y :: insert_desc stamp x rest
  end.

Definition orderBy_desc {A : Type} (stamp : A -> Z) (rows : list A) : list A :=
  foldr (insert_desc stamp) [] rows.

(** [skip] and [take]: a negative [skip] is refused by the client; a negative
    [take] counts from the end of the ordering. *)
Definition window {A : Type} (skip take : Z) (rows : list A) : Completion (list A) :=
  if skip <? 0
  then Throw (mkError "Invalid value for skip argument: Value can only be positive")
  else if 0 <=? take
       then Return (firstn (Z.to_nat take) (skipn (Z.to_nat skip) rows))
       else Return (rev (firstn (Z.to_nat (- take)) (skipn (Z.to_nat skip) (rev rows)))).

Definition user_count : Async Prisma Z :=
  read_only (fun d => Z.of_nat (length (tb_user d))).

(** [user.findMany({ skip, take, orderBy: { created_at: "desc" }, select })] *)
Definition user_findMany (skip take : Z) : Async Prisma (list UserView) :=
  round_trip (fun d =>
    (window skip take (map select_user (orderBy_desc User.created_at (tb_user d))), d)).

(** [user.findUnique({ where: { email } })] *)
Definition user_findUnique_email (email : string) : Async Prisma (option User.t) :=
  read_only (fun d => head (List.filter (fun u => eqs (User.email u) email) (tb_user d))).


(** A role with [include: { role_permissions: { include: { permission } },
    _count: { select: { user_roles } } }]. *)
Record RoleRow : Type := mkRoleRow {
  rr_role : Role.t;
  rr_role_permissions : list (RolePermission.t * PermissionView);
  rr_count_user_roles : Z
}.

Definition include_role (d : Db) (r : Role.t) : RoleRow :=
  {| rr_role := r;
     rr_role_permissions :=
       flat_map (fun rp =>
           map (fun p => (rp, select_permission p))
               (List.filter (fun p => eqs (Permission.id p) (RolePermission.permission_id rp))
                  (tb_permission d)))
         (List.filter (fun rp => eqs (RolePermission.role_id rp) (Role.id r))
            (tb_role_permission d));
     rr_count_user_roles :=
       Z.of_nat (length (List.filter (fun ur => eqs (UserRole.role_id ur) (Role.id r))
                           (tb_user_role d))) |}.


(** [role.findUnique({ where: { id } })] *)
Definition role_findUnique (id : string) : Async Prisma (option Role.t) :=
  read_only (fun d => head (List.filter (fun r => eqs (Role.id r) id) (tb_role d))).

(** [role.findUnique({ where: { id }, include })] *)
Definition role_findUnique_include (id : string) : Async Prisma (option RoleRow) :=
  read_only (fun d =>
    include_role d <$> head (List.filter (fun r => eqs (Role.id r) id) (tb_role d))).

(** [permission.findMany({ where: { id: { in: ids } } })] *)
Definition permission_findMany_in (ids : list string) : Async Prisma (list Permission.t) :=
  read_only (fun d =>
    List.filter (fun p => existsb (eqs (Permission.id p)) ids) (tb_permission d)).

Definition set_role_permission (rows : list RolePermission.t) (d : Db) : Db :=
  {| tb_user := tb_user d; tb_role := tb_role d; tb_permission := tb_permission d;
     tb_user_role := tb_user_role d; tb_role_permission := rows |}.

(** [rolePermission.deleteMany({ where: { role_id } })], returning the count. *)
Definition rolePermission_deleteMany (role_id : string) : Async Prisma Z :=
  round_trip (fun d =>
    let kept := List.filter (fun rp => negb (eqs (RolePermission.role_id rp) role_id))
                  (tb_role_permission d) in
    (Return (Z.of_nat (length (tb_role_permission d)) - Z.of_nat (length kept)),
     set_role_permission kept d)).

Definition same_pair (a b : RolePermission.t) : bool :=
  eqs (RolePermission.role_id a) (RolePermission.role_id b)
  && eqs (RolePermission.permission_id a) (RolePermission.permission_id b).

(** No two rows of the list agree on [(role_id, permission_id)]. *)
Fixpoint unique_pairs (rows : list RolePermission.t) : bool :=
  match rows with
  | [] => true
  | r :: rest => negb (existsb (same_pair r) rest) && unique_pairs rest
  end.

Definition references_exist (d : Db) (r : RolePermission.t) : bool :=
  existsb (fun x => eqs (Role.id x) (RolePermission.role_id r)) (tb_role d)
  && existsb (fun x => eqs (Permission.id x) (RolePermission.permission_id r)) (tb_permission d).

(** [rolePermission.createMany({ data })]: one INSERT statement; it fails as a
    whole on a violation of the unique index on [(role_id, permission_id)] or
    of a foreign key. *)
Definition rolePermission_createMany (data : list RolePermission.t) : Async Prisma Z :=
  round_trip (fun d =>
    if negb (unique_pairs (tb_role_permission d ++ data))
    then (Throw (mkError "Unique constraint failed on the fields: (`role_id`,`permission_id`)"), d)
    else if negb (forallb (references_exist d) data)
    then (Throw (mkError "Foreign key constraint violated"), d)
    else (Return (Z.of_nat (length data)),
          set_role_permission (tb_role_permission d ++ data) d)).

End prisma.

(** ** The request, as far as the middlewares read it *)

(** [type ValidatedData = Partial<{ body; query; params; headers }>] *)
Record ValidatedData : Type := mkValidated {
  v_body : option Json;
  v_query : option Json;
  v_params : option Json;
  v_headers : option Json
}.

Record Request : Type := mkRequest {
  user : option Jwt.JWTPayload;
  ip : option string;
  remoteAddress : option string;
  params : Json;
  query : Json;
  body : Json;
  headers : Json;
  validated : option ValidatedData
}.

(** [req.user?.userId], [None] when it is undefined or falsy. *)
Definition identity (req : Request) : option string :=
  match user req with
  | Some u => if falsy (Jwt.userId u) then None else Some (Jwt.userId u)
  | None => None
  end.

(** [string | string[]] parameters and [Array.isArray(x) ? x : [x]]. *)
Inductive Names : Type :=
| One (name : string)
| Many (names : list string).

Definition as_array (x : Names) : list string :=
  match x with
  | One s => [s]
  | Many l => l
  end.

(** ** Role Middleware ([hasRole]) *)

Module RoleMiddleware.
Import httpStatusCodes.
Local Open Scope async_scope.

Definition hasRole (roles : Names) (req : Request) : Async Prisma Outcome :=
  match identity req with
  | None => ret (Send UNAUTHORIZED (envelope false "User not authenticated" JNull))
  | Some userId =>
      try_await
        (let allowedRoles := as_array roles in
         userRoles <- prisma.userRole_findMany_role userId ;;
         let userRoleNames := map snd userRoles in
         let hasRequiredRole :=
           existsb (fun role => existsb (eqs role) userRoleNames) allowedRoles in
         if negb hasRequiredRole
         then ret (Send FORBIDDEN
                     (envelope false
                        ("Access denied. Required role(s): " ++ join ", " allowedRoles) JNull))
         else ret Next)
        (fun _error =>
           ret (Send INTERNAL_SERVER_ERROR (envelope false "Failed to check user role" JNull)))
  end.

End RoleMiddleware.

(** ** Permission Middleware ([@/middleware/permission]) *)

Module PermissionMiddleware.
Import httpStatusCodes.
Local Open Scope async_scope.

(** The two nested [for ... of] loops filling [userPermissions: Set<string>]. *)
Definition collect_permissions
  (userRoles : list (UserRole.t * (Role.t * list (RolePermission.t * string)))) : gset string :=
  foldl (fun acc userRole =>
           foldl (fun acc' rolePermission => acc' ∪ {[ snd rolePermission ]})
                 acc (snd (snd userRole)))
        ∅ userRoles.

Definition hasPermission (permissions : Names) (req : Request) : Async Prisma Outcome :=
  match identity req with
  | None => ret (Send UNAUTHORIZED (envelope false "User not authenticated" JNull))
  | Some userId =>
      try_await
        (let requiredPermissions := as_array permissions in
         userRoles <- prisma.userRole_findMany_role_permissions userId ;;
         let userPermissions := collect_permissions userRoles in
         let hasAllPermissions :=
           forallb (fun permission => bool_decide (permission ∈ userPermissions))
                   requiredPermissions in
         if negb hasAllPermissions
         then ret (Send FORBIDDEN
                     (envelope false
                        ("Access denied. Required permission(s): "
                           ++ join ", " requiredPermissions) JNull))
         else ret Next)
        (fun _error =>
           ret (Send INTERNAL_SERVER_ERROR
                  (envelope false "Failed to check user permissions" JNull)))
  end.

End PermissionMiddleware.

(** ** The cache gateway: a Redis server holding sorted sets *)

(** [n.toString()] on an integer. *)
Definition toString (n : Z) : string := pretty n.

(** [Math.ceil(a / b)] for integers [a] and [b > 0]. *)
Definition ceil_div (a b : Z) : Z := - ((- a) / b).

Module Redis.

(** A sorted-set key: the score of every member, and the instant (in
    milliseconds) at which the key expires, if an expiry is set. *)
Record Key : Type := mkKey { zset : gmap string Z; expire_at : option Z }.

(** [redisClient] of src/application/redis.ts ([connected = false]: it is still
    [null]), the server's keyspace, and the failure of each command still to
    come, as for the Prisma client. *)
Record Client : Type := mkClient {
  connected : bool;
  keyspace : gmap string Key;
  faults : list bool
}.

Definition redis_error : JsError := mkError "The client is closed".

(** A key whose expiry instant has passed is gone; so is an emptied set. *)
Definition live (now : Z) (ks : gmap string Key) (key : string) : option Key :=
  match ks !! key with
  | Some k =>
      match expire_at k with
      | Some e => if e <=? now then None else Some k
      | None => Some k
      end
  | None => None
  end.

Definition store (key : string) (k : Key) (ks : gmap string Key) : gmap string Key :=
  if decide (zset k = ∅) then delete key ks else <[key := k]> ks.

(** One awaited command, run by the server at instant [now]. *)
Definition command {A : Type} (run : gmap string Key -> A * gmap string Key)
  : Async Client A :=
  fun c =>
    match faults c with
    | true :: rest =>
        (Throw redis_error,
         {| connected := connected c; keyspace := keyspace c; faults := rest |})
    | false :: rest =>
        let r := run (keyspace c) in
        (Return (fst r), {| connected := connected c; keyspace := snd r; faults := rest |})
    | [] =>
        let r := run (keyspace c) in
        (Return (fst r), {| connected := connected c; keyspace := snd r; faults := [] |})
    end.

(** [getRedis()]: throws until [initRedis()] has set the client. *)
Definition getRedis : Async Client unit :=
  fun c =>
    if connected c then (Return tt, c)
    else (Throw (mkError "Redis client not initialized. Call initRedis() first."), c).

Definition in_range (lo hi score : Z) : bool := (lo <=? score) && (score <=? hi).

(** The commands as the server runs them at instant [now]: the reply and the
    new keyspace. *)

(** ZREMRANGEBYSCORE key min max: removes the members with min <= score <= max. *)
Definition ZREMRANGEBYSCORE (now : Z) (key : string) (lo hi : Z) (ks : gmap string Key)
  : Z * gmap string Key :=
  match live now ks key with
  | Some k =>
      let kept := filter (fun e => in_range lo hi (snd e) = false) (zset k) in
      (Z.of_nat (size (zset k)) - Z.of_nat (size kept),
       store key {| zset := kept; expire_at := expire_at k |} ks)
  | None => (0, delete key ks)
  end.

(** ZCARD key *)
Definition ZCARD (now : Z) (key : string) (ks : gmap string Key) : Z * gmap string Key :=
  match live now ks key with
  | Some k => (Z.of_nat (size (zset k)), ks)
  | None => (0, ks)
  end.

(** PTTL key: -2 without the key, -1 without an expiry, else the milliseconds left. *)
Definition PTTL (now : Z) (key : string) (ks : gmap string Key) : Z * gmap string Key :=
  match live now ks key with
  | Some k =>
      match expire_at k with
      | Some e => (e - now, ks)
      | None => (-1, ks)
      end
  | None => (-2, ks)
  end.

(** ZADD key score member: adds the member or updates its score. *)
Definition ZADD (now : Z) (key : string) (score : Z) (value : string) (ks : gmap string Key)
  : Z * gmap string Key :=
  match live now ks key with
  | Some k =>
      ((if decide (is_Some (zset k !! value)) then 0 else 1),
       <[key := {| zset := <[value := score]> (zset k); expire_at := expire_at k |}]> ks)
  | None =>
      (1, <[key := {| zset := {[ value := score ]}; expire_at := None |}]> ks)
  end.

(** ZREM key member *)
Definition ZREM (now : Z) (key : string) (value : string) (ks : gmap string Key)
  : Z * gmap string Key :=
  match live now ks key with
  | Some k =>
      ((if decide (is_Some (zset k !! value)) then 1 else 0),
       store key {| zset := delete value (zset k); expire_at := expire_at k |} ks)
  | None => (0, delete key ks)
  end.

(** EXPIRE key seconds *)
Definition EXPIRE (now : Z) (key : string) (seconds : Z) (ks : gmap string Key)
  : bool * gmap string Key :=
  match live now ks key with
  | Some k =>
      if seconds <=? 0 then (true, delete key ks)
      else (true, <[key := {| zset := zset k; expire_at := Some (now + seconds * 1000) |}]> ks)
  | None => (false, delete key ks)
  end.

(** The client's methods. *)
Definition zRemRangeByScore (now : Z) (key : string) (lo hi : Z) : Async Client Z :=
  command (ZREMRANGEBYSCORE now key lo hi).

Definition zCard (now : Z) (key : string) : Async Client Z :=
  command (ZCARD now key).

Definition pTTL (now : Z) (key : string) : Async Client Z :=
  command (PTTL now key).

Definition zAdd (now : Z) (key : string) (score : Z) (value : string) : Async Client Z :=
  command (ZADD now key score value).

Definition zRem (now : Z) (key : string) (value : string) : Async Client Z :=
  command (ZREM now key value).

Definition expire (now : Z) (key : string) (seconds : Z) : Async Client bool :=
  command (EXPIRE now key seconds).

End Redis.

(** ** Rate Limit Middleware ([src/middleware/rate-limit.ts]) *)

Module RateLimit.
Import httpStatusCodes.
Local Open Scope async_scope.

(** [interface RateLimitOptions]: every field is optional. *)
Record RateLimitOptions : Type := mkOptions {
  windowMs : option Z;
  max : option Z;
  message : option string;
  keyGenerator : option (Request -> string);
  skipSuccessfulRequests : option bool;
  skipFailedRequests : option bool
}.

Definition no_options : RateLimitOptions :=
  {| windowMs := None; max := None; message := None; keyGenerator := None;
     skipSuccessfulRequests := None; skipFailedRequests := None |}.

(** [Required<RateLimitOptions>] *)
Record Opts : Type := mkOpts {
  o_windowMs : Z;
  o_max : Z;
  o_message : string;
  o_keyGenerator : Request -> string;
  o_skipSuccessfulRequests : bool;
  o_skipFailedRequests : bool
}.

Definition defaultOptions : Opts :=
  {| o_windowMs := 60 * 1000;
     o_max := 100;
     o_message := "Too many requests, please try again later.";
     o_keyGenerator := fun req =>
       match ip req with
       | Some a => if falsy a then
                     match remoteAddress req with
                     | Some b => if falsy b then "unknown" else b
                     | None => "unknown"
                     end
                   else a
       | None =>
           match remoteAddress req with
           | Some b => if falsy b then "unknown" else b
           | None => "unknown"
           end
       end;
     o_skipSuccessfulRequests := false;
     o_skipFailedRequests := false |}.

(** [{ ...defaultOptions, ...options }] *)
Definition spread (d : Opts) (o : RateLimitOptions) : Opts :=
  {| o_windowMs := default (o_windowMs d) (windowMs o);
     o_max := default (o_max d) (max o);
     o_message := default (o_message d) (message o);
     o_keyGenerator := default (o_keyGenerator d) (keyGenerator o);
     o_skipSuccessfulRequests := default (o_skipSuccessfulRequests d) (skipSuccessfulRequests o);
     o_skipFailedRequests := default (o_skipFailedRequests d) (skipFailedRequests o) |}.

(** The replacement of [res.send] installed when one of the skip options is
    set: the closure's captured [key] and [now]. *)
Record SendHook : Type := mkHook { hook_key : string; hook_now : Z }.

(** The response object as the limiter leaves it. *)
Record Res : Type := mkRes { res_headers : gmap string string; send : option SendHook }.

Definition setHeader (name value : string) (res : Res) : Res :=
  {| res_headers := <[name := value]> (res_headers res); send := send res |}.

(** The middleware returned by [createRateLimiter(options)], run at instant
    [now = Date.now()] with [rnd] the rendering of [Math.random()]. *)
Definition createRateLimiter (options : RateLimitOptions)
    (req : Request) (res : Res) (now : Z) (rnd : string) : Async Redis.Client (Res * Outcome) :=
  let opts := spread defaultOptions options in
  try_await
    (Redis.getRedis ;;;
     let key := "rate-limit:" ++ o_keyGenerator opts req in
     let windowStart := now - o_windowMs opts in
     Redis.zRemRangeByScore now key 0 windowStart ;;;
     requestCount <- Redis.zCard now key ;;
     if o_max opts <=? requestCount then
       ttl <- Redis.pTTL now key ;;
       let resetTime :=
         if 0 <? ttl then ceil_div ttl 1000 else ceil_div (o_windowMs opts) 1000 in
       let res := setHeader "X-RateLimit-Limit" (toString (o_max opts)) res in
       let res := setHeader "X-RateLimit-Remaining" "0" res in
       let res := setHeader "X-RateLimit-Reset" (toString resetTime) res in
       let res := setHeader "Retry-After" (toString resetTime) res in
       ret (res, Send 429
                   (JObj [("message", JStr (o_message opts)); ("retryAfter", JNum resetTime)]))
     else
       Redis.zAdd now key now (toString now ++ ":" ++ rnd) ;;;
       Redis.expire now key (ceil_div (o_windowMs opts) 1000) ;;;
       let res := setHeader "X-RateLimit-Limit" (toString (o_max opts)) res in
       let res := setHeader "X-RateLimit-Remaining"
                    (toString (o_max opts - requestCount - 1)) res in
       let res := setHeader "X-RateLimit-Reset"
                    (toString (ceil_div (o_windowMs opts) 1000)) res in
       let res :=
         if o_skipSuccessfulRequests opts || o_skipFailedRequests opts
         then {| res_headers := res_headers res; send := Some {| hook_key := key; hook_now := now |} |}
         else res in
       ret (res, Next))
    (fun error => ret (res, Next)).

(** Default rate limiter (100 requests per minute) *)
Definition rateLimiter := createRateLimiter no_options.

(** Strict rate limiter (10 requests per minute) *)
Definition strictRateLimiter :=
  createRateLimiter
    {| windowMs := Some (60 * 1000); max := Some 10;
       message := Some "Too many requests. Please slow down.";
       keyGenerator := None; skipSuccessfulRequests := None; skipFailedRequests := None |}.

(** JavaScript truthiness and [String(v)] of a JSON value, as the template
    literal of the key generator applies them. *)
Definition truthy (v : Json) : bool :=
  match v with
  | JNull => false
  | JBool b => b
  | JNum n => negb (n =? 0)
  | JStr s => negb (falsy s)
  | JArr _ => true
  | JObj _ => true
  end.

Fixpoint js_string (v : Json) : string :=
  match v with
  | JNull => "null"
  | JBool true => "true"
  | JBool false => "false"
  | JNum n => toString n
  | JStr s => s
  | JArr items =>
      join "," (map (fun x => match x with JNull => "" | _ => js_string x end) items)
  | JObj _ => "[object Object]"
  end.

(** [v?.name]: the member of an object, [undefined] on anything else. *)
Fixpoint member_of (name : string) (fields : list (string * Json)) : option Json :=
  match fields with
  | [] => None
  | (k, v) :: rest => if eqs k name then Some v else member_of name rest
  end.

Definition property (name : string) (v : Json) : option Json :=
  match v with
  | JObj fields => member_of name fields
  | _ => None
  end.

(** [req.body?.email || req.body?.username || ""], rendered in the template. *)
Definition identifier (req : Request) : string :=
  match property "email" (body req) with
  | Some e =>
      if truthy e then js_string e
      else match property "username" (body req) with
           | Some u => if truthy u then js_string u else ""
           | None => ""
           end
  | None =>
      match property "username" (body req) with
      | Some u => if truthy u then js_string u else ""
      | None => ""
      end
  end.

(** The key generator of the auth rate limiter: [`${req.ip}:${identifier}`]. *)
Definition auth_keyGenerator (req : Request) : string :=
  default "undefined" (ip req) ++ ":" ++ identifier req.

(** Auth rate limiter (5 requests per 15 minutes) *)
Definition authRateLimiter :=
  createRateLimiter
    {| windowMs := Some (15 * 60 * 1000); max := Some 5;
       message := Some "Too many authentication attempts. Please try again later.";
       keyGenerator := Some auth_keyGenerator;
       skipSuccessfulRequests := None; skipFailedRequests := None |}.

(** The replacement of [res.send] once installed, called when the response
    is sent with status [statusCode]: [at_instant] is the instant at which
    the server runs the removal, [rnd] the new draw of [Math.random()].  The
    removal is not awaited and its failure is only logged. *)
Definition on_send (opts : Opts) (hook : SendHook) (statusCode at_instant : Z) (rnd : string)
  : Async Redis.Client unit :=
  let shouldSkip :=
    (o_skipSuccessfulRequests opts && (statusCode <? 400))
    || (o_skipFailedRequests opts && (400 <=? statusCode)) in
  if shouldSkip
  then try_await
         (Redis.zRem at_instant (hook_key hook) (toString (hook_now hook) ++ ":" ++ rnd) ;;;
          ret tt)
         (fun err => ret tt)
  else ret tt.

End RateLimit.

(** ** Routing Module ([@/application/route]): the request validator *)

Module Route.
Import httpStatusCodes.

(** [keyof ZodValidation] *)
Inductive Where : Type := w_params | w_query | w_body | w_headers.

Definition where_name (w : Where) : string :=
  match w with
  | w_params => "params"
  | w_query => "query"
  | w_body => "body"
  | w_headers => "headers"
  end.

(** An element of a Zod issue path: a property name or an array index. *)
Inductive PropertyKey : Type :=
| Prop_ (name : string)
| Index (i : Z).

Definition key_string (k : PropertyKey) : string :=
  match k with
  | Prop_ s => s
  | Index i => toString i
  end.

Record ZodIssue : Type := mkIssue { path : list PropertyKey; issue_message : string }.

(** The result of [schema.safeParse(value)].  Zod reports failure exactly when
    it has collected at least one issue, so a failure carries a first issue. *)
Inductive SafeParse : Type :=
| Success (data : Json)
| Failure (first : ZodIssue) (others : list ZodIssue).

(** A Zod schema, as far as the validator uses it. *)
Definition ZodType : Type := Json -> SafeParse.

(** [type ZodValidation = Partial<{ body; query; params; headers }>] *)
Record ZodValidation : Type := mkValidation {
  s_body : option ZodType;
  s_query : option ZodType;
  s_params : option ZodType;
  s_headers : option ZodType
}.

Definition schema_of (validation : ZodValidation) (w : Where) : option ZodType :=
  match w with
  | w_params => s_params validation
  | w_query => s_query validation
  | w_body => s_body validation
  | w_headers => s_headers validation
  end.

(** An element of [issues]: [{ where, path, message }]. *)
Record Issue : Type := mkReported { i_where : Where; i_path : string; i_message : string }.

Definition report (w : Where) (i : ZodIssue) : Issue :=
  {| i_where := w; i_path := join "." (map key_string (path i)); i_message := issue_message i |}.

(** What the closure [run] reads and writes: [req], [validated], [issues]. *)
Record Frame : Type := mkFrame {
  f_req : Request;
  f_validated : ValidatedData;
  f_issues : list Issue
}.

Definition set_validated (w : Where) (data : Json) (v : ValidatedData) : ValidatedData :=
  match w with
  | w_params => {| v_body := v_body v; v_query := v_query v; v_params := Some data;
                   v_headers := v_headers v |}
  | w_query => {| v_body := v_body v; v_query := Some data; v_params := v_params v;
                  v_headers := v_headers v |}
  | w_body => {| v_body := Some data; v_query := v_query v; v_params := v_params v;
                 v_headers := v_headers v |}
  | w_headers => {| v_body := v_body v; v_query := v_query v; v_params := v_params v;
                    v_headers := Some data |}
  end.

Definition set_body (data : Json) (req : Request) : Request :=
  {| user := user req; ip := ip req; remoteAddress := remoteAddress req;
     params := params req; query := query req; body := data; headers := headers req;
     validated := validated req |}.

Definition set_req_validated (v : ValidatedData) (req : Request) : Request :=
  {| user := user req; ip := ip req; remoteAddress := remoteAddress req;
     params := params req; query := query req; body := body req; headers := headers req;
     validated := Some v |}.

Definition run (validation : ZodValidation) (w : Where) (value : Json) (f : Frame) : Frame :=
  match schema_of validation w with
  | None => f
  | Some schema =>
      match schema value with
      | Failure i rest =>
          {| f_req := f_req f;
             f_validated := f_validated f;
             f_issues := f_issues f ++ map (report w) (i :: rest) |}
      | Success data =>
          let f' := {| f_req := f_req f;
                       f_validated := set_validated w data (f_validated f);
                       f_issues := f_issues f |} in
          match w with
          | w_body => {| f_req := set_body data (f_req f');
                         f_validated := f_validated f';
                         f_issues := f_issues f' |}
          | _ => f'
          end
      end
  end.

(** [{ ...a, ...b }] on two partial records. *)
Definition spread_validated (a b : ValidatedData) : ValidatedData :=
  {| v_body := match v_body b with Some x => Some x | None => v_body a end;
     v_query := match v_query b with Some x => Some x | None => v_query a end;
     v_params := match v_params b with Some x => Some x | None => v_params a end;
     v_headers := match v_headers b with Some x => Some x | None => v_headers a end |}.

Definition no_validated : ValidatedData :=
  {| v_body := None; v_query := None; v_params := None; v_headers := None |}.

Definition issue_json (i : Issue) : Json :=
  JObj [("where", JStr (where_name (i_where i)));
        ("path", JStr (i_path i));
        ("message", JStr (i_message i))].

Definition validation_error (issues : list Issue) : Json :=
  JObj [("status", JStr "error");
        ("message", JStr "Validation error");
        ("errors", JArr (map issue_json issues))].

(** The middleware returned by [zodValidator(validation)]: the request as it
    leaves it, and what it did. *)
Definition zodValidator (validation : ZodValidation) (req : Request) : Request * Outcome :=
  let f := {| f_req := req; f_validated := no_validated; f_issues := [] |} in
  let f := run validation w_params (params (f_req f)) f in
  let f := run validation w_query (query (f_req f)) f in
  let f := run validation w_body (body (f_req f)) f in
  let f := run validation w_headers (headers (f_req f)) f in
  if (0 <? Z.of_nat (length (f_issues f)))
  then (f_req f, Send 422 (validation_error (f_issues f)))
  else (set_req_validated
          (spread_validated (default no_validated (validated (f_req f))) (f_validated f))
          (f_req f),
        Next).

End Route.

(** ** Pagination, as both list services compute it *)

(** [interface PaginationMeta] *)
Record PaginationMeta : Type := mkMeta {
  total : Z;
  page : Z;
  per_page : Z;
  total_pages : Z;
  has_next_page : bool;
  has_prev_page : bool
}.

(** [{ page?: number; per_page?: number }] *)
Record ListParams : Type := mkParams { p_page : option Z; p_per_page : option Z }.

(** [x || d] on an optional number: [undefined] and [0] are falsy. *)
Definition or_else (x : option Z) (d : Z) : Z :=
  match x with
  | Some v => if v =? 0 then d else v
  | None => d
  end.

(** ** Users Service Module ([@/modules/users/users.service]) *)

Module UsersService.
Local Open Scope async_scope.

Definition getAllUsers (params : ListParams) : Async Prisma (list prisma.UserView * PaginationMeta) :=
  let page := or_else (p_page params) 1 in
  let per_page := or_else (p_per_page params) 10 in
  let skip := (page - 1) * per_page in
  total <- prisma.user_count ;;
  users <- prisma.user_findMany skip per_page ;;
  let total_pages := ceil_div total per_page in
  let has_next_page := page <? total_pages in
  let has_prev_page := 1 <? page in
  let meta := {| total := total; page := page; per_page := per_page;
                 total_pages := total_pages;
                 has_next_page := has_next_page; has_prev_page := has_prev_page |} in
  ret (users, meta).

End UsersService.

(** ** Roles Service Module ([src/modules/roles/roles.service.ts]) *)

Module RolesService.
Local Open Scope async_scope.

(** The object a role is mapped to before it is returned. *)
Record RoleData : Type := mkRoleData {
  id : string;
  name : string;
  description : option string;
  permissions : list prisma.PermissionView;
  users_count : Z;
  created_at : Z;
  updated_at : Z
}.

Definition role_data (role : prisma.RoleRow) : RoleData :=
  {| id := Role.id (prisma.rr_role role);
     name := Role.name (prisma.rr_role role);
     description := Role.description (prisma.rr_role role);
     permissions := map snd (prisma.rr_role_permissions role);
     users_count := prisma.rr_count_user_roles role;
     created_at := Role.created_at (prisma.rr_role role);
     updated_at := Role.updated_at (prisma.rr_role role) |}.


Definition getRoleById (id : string) : Async Prisma RoleData :=
  role <- prisma.role_findUnique_include id ;;
  match role with
  | None => throw (mkError "Role not found")
  | Some role => ret (role_data role)
  end.

(** [AssignPermissionsInput] *)
Record AssignPermissionsInput : Type := mkAssign { permission_ids : list string }.

Definition assignPermissions (roleId : string) (data : AssignPermissionsInput)
  : Async Prisma RoleData :=
  role <- prisma.role_findUnique roleId ;;
  match role with
  | None => throw (mkError "Role not found")
  | Some _ =>
      permissions <- prisma.permission_findMany_in (permission_ids data) ;;
      if negb (length permissions =? length (permission_ids data))%nat
      then throw (mkError "One or more permissions not found")
      else
        prisma.rolePermission_deleteMany roleId ;;;
        prisma.rolePermission_createMany
          (map (fun permissionId =>
                  {| RolePermission.role_id := roleId;
                     RolePermission.permission_id := permissionId |})
               (permission_ids data)) ;;;
        getRoleById roleId
  end.

End RolesService.

(** ** Auth Service Module ([src/modules/auth/auth.service.ts]) *)

Module AuthService.
Local Open Scope async_scope.

(** [LoginInput], the shape the login schema guarantees. *)
Record LoginInput : Type := mkLogin { email : string; password : string }.

Section WithLibraries.

(** [bcrypt.compare(data, encrypted)] and the token service's parameters. *)
Variable bcrypt_compare : string -> string -> Completion bool.
Variable jwt_sign : Jwt.JWTPayload -> string -> string -> string.
Variable JWT_SECRET JWT_EXPIRES_IN JWT_REFRESH_SECRET JWT_REFRESH_EXPIRES_IN : string.

Definition await_bcrypt (data encrypted : string) : Async Prisma bool :=
  fun p => (bcrypt_compare data encrypted, p).

Definition login (data : LoginInput) : Async Prisma Jwt.TokenPair :=
  user <- prisma.user_findUnique_email (email data) ;;
  match user with
  | None => throw (mkError "Invalid credentials")
  | Some user =>
      isValidPassword <- await_bcrypt (password data) (User.password user) ;;
      if negb isValidPassword
      then throw (mkError "Invalid credentials")
      else
        ret (Jwt.generateTokenPair jwt_sign JWT_SECRET JWT_EXPIRES_IN
               JWT_REFRESH_SECRET JWT_REFRESH_EXPIRES_IN
               {| Jwt.userId := User.id user; Jwt.email := User.email user |})
  end.

End WithLibraries.

End AuthService.

(** ** Auth Controller Module ([src/modules/auth/auth.controller.ts]) *)

Module AuthController.
Import httpStatusCodes.
Local Open Scope async_scope.

Fixpoint field (name : string) (fields : list (string * Json)) : option Json :=
  match fields with
  | [] => None
  | (k, v) :: rest => if eqs k name then Some v else field name rest
  end.

(** [req.validated?.body as LoginInput]: the cast checks nothing; reading the
    fields of a value that has not the validated shape makes the service throw. *)
Definition as_LoginInput (req : Request) : Completion AuthService.LoginInput :=
  match validated req with
  | Some v =>
      match v_body v with
      | Some (JObj fields) =>
          match field "email" fields, field "password" fields with
          | Some (JStr e), Some (JStr p) =>
              Return {| AuthService.email := e; AuthService.password := p |}
          | _, _ => Throw (mkError "Invalid `prisma.user.findUnique()` invocation")
          end
      | _ => Throw (mkError "Cannot read properties of undefined (reading 'email')")
      end
  | None => Throw (mkError "Cannot read properties of undefined (reading 'email')")
  end.

Definition token_json (t : Jwt.TokenPair) : Json :=
  JObj [("access_token", JStr (Jwt.access_token t));
        ("refresh_token", JStr (Jwt.refresh_token t));
        ("token_type", JStr (Jwt.token_type t));
        ("expires_in", JStr (Jwt.expires_in t))].

Section WithLibraries.

Variable bcrypt_compare : string -> string -> Completion bool.
Variable jwt_sign : Jwt.JWTPayload -> string -> string -> string.
Variable JWT_SECRET JWT_EXPIRES_IN JWT_REFRESH_SECRET JWT_REFRESH_EXPIRES_IN : string.

Definition login (req : Request) : Async Prisma Outcome :=
  try_await
    (data <- (fun p => (as_LoginInput req, p)) ;;
     tokens <- AuthService.login bcrypt_compare jwt_sign JWT_SECRET JWT_EXPIRES_IN
                 JWT_REFRESH_SECRET JWT_REFRESH_EXPIRES_IN data ;;
     ret (Send OK (envelope true "Login successful" (token_json tokens))))
    (fun error =>
       let message := message error in
       let statusCode :=
         if eqs message "Invalid credentials" then UNAUTHORIZED else INTERNAL_SERVER_ERROR in
       ret (Send statusCode (envelope false message JNull))).

End WithLibraries.

End AuthController.

(** ** Notions the properties are stated with *)


(** The issues one section's schema reports on the request as it arrived, and
    the issues of all four sections. *)
Definition section_of (w : Route.Where) (req : Request) : Json :=
  match w with
  | Route.w_params => params req
  | Route.w_query => query req
  | Route.w_body => body req
  | Route.w_headers => headers req
  end.

Definition section_issues (validation : Route.ZodValidation) (w : Route.Where) (req : Request)
  : list Route.Issue :=
  match Route.schema_of validation w with
  | Some schema =>
      match schema (section_of w req) with
      | Route.Failure i rest => map (Route.report w) (i :: rest)
      | Route.Success _ => []
      end
  | None => []
  end.

Definition collected (validation : Route.ZodValidation) (req : Request) : list Route.Issue :=
  section_issues validation Route.w_params req
  ++ section_issues validation Route.w_query req
  ++ section_issues validation Route.w_body req
  ++ section_issues validation Route.w_headers req.

(** The body the body schema parsed, when there is a body schema and it
    accepts the request's body. *)
Definition parsed_body (validation : Route.ZodValidation) (req : Request) : option Json :=
  match Route.s_body validation with
  | Some schema =>
      match schema (body req) with
      | Route.Success data => Some data
      | Route.Failure _ _ => None
      end
  | None => None
  end.




(** The permission ids associated with a role, in table order. *)
Definition permissions_of (d : Db) (roleId : string) : list string :=
  map RolePermission.permission_id
      (List.filter (fun rp => eqs (RolePermission.role_id rp) roleId) (tb_role_permission d)).

Definition role_exists (d : Db) (roleId : string) : Prop :=
  exists r, In r (tb_role d) /\ Role.id r = roleId.

Definition permission_exists (d : Db) (permissionId : string) : Prop :=
  exists p, In p (tb_permission d) /\ Permission.id p = permissionId.

(** The columns of the junction's unique index. *)
Definition pair_key (r : RolePermission.t) : string * string :=
  (RolePermission.role_id r, RolePermission.permission_id r).

(** The junction rows a replacement keeps (those of other roles) and adds. *)
Definition kept_rows (d : Db) (roleId : string) : list RolePermission.t :=
  List.filter (fun rp => negb (eqs (RolePermission.role_id rp) roleId)) (tb_role_permission d).

Definition new_rows (roleId : string) (ids : list string) : list RolePermission.t :=
  map (fun permissionId => {| RolePermission.role_id := roleId;
                              RolePermission.permission_id := permissionId |}) ids.

(** The constraints of the schema the role service relies on: the primary
    keys of roles and permissions, and the unique index of the junction. *)
Definition integrity (d : Db) : Prop :=
  List.NoDup (map Role.id (tb_role d))
  /\ List.NoDup (map Permission.id (tb_permission d))
  /\ prisma.unique_pairs (tb_role_permission d) = true.

(** The sorted set a command finds under a key at instant [now]. *)
Definition window_entries (now : Z) (ks : gmap string Redis.Key) (key : string) : gmap string Z :=
  match Redis.live now ks key with
  | Some k => Redis.zset k
  | None => ∅
  end.

(** The entries that remain once those with a score from 0 up to
    [now - windowMs] are discarded. *)
Definition purged (now windowMs : Z) (ks : gmap string Redis.Key) (key : string)
  : gmap string Z :=
  filter (fun e => Redis.in_range 0 (now - windowMs) (snd e) = false)
         (window_entries now ks key).

(** What the key holds once the purge has run at instant [now]. *)
Definition after_purge (now windowMs : Z) (ks : gmap string Redis.Key) (key : string)
  : option Redis.Key :=
  match Redis.live now ks key with
  | Some k =>
      let kept := filter (fun e => Redis.in_range 0 (now - windowMs) (snd e) = false)
                         (Redis.zset k) in
      if decide (kept = ∅) then None
      else Some {| Redis.zset := kept; Redis.expire_at := Redis.expire_at k |}
  | None => None
  end.

(** The member the limiter records for a request. *)
Definition member (now : Z) (rnd : string) : string := toString now ++ ":" ++ rnd.

(** The sorted set holding exactly the given requests (instant and draw). *)
Definition recorded (done : list (Z * string)) : gmap string Z :=
  list_to_map (map (fun p => (member (fst p) (snd p), fst p)) done).

(** The key after the requests [done] (newest first) have been recorded
    within one window of [windowMs] milliseconds. *)
Definition holds_window (windowMs : Z) (done : list (Z * string))
    (ks : gmap string Redis.Key) (key : string) : Prop :=
  match done with
  | [] => ks !! key = None
  | (t, _) :: _ =>
      ks !! key = Some {| Redis.zset := recorded done;
                          Redis.expire_at := Some (t + ceil_div windowMs 1000 * 1000) |}
  end.

(** A cache that answers every command. *)
Definition serving (ks : gmap string Redis.Key) : Redis.Client :=
  {| Redis.connected := true; Redis.keyspace := ks; Redis.faults := [] |}.

(** Requests reaching one limiter one after the other, each given by its
    instant and its random draw, each with a response that has no header yet. *)
Fixpoint serve (options : RateLimit.RateLimitOptions) (req : Request)
    (trace : list (Z * string)) (c : Redis.Client)
  : list (RateLimit.Res * Outcome) * Redis.Client :=
  match trace with
  | [] => ([], c)
  | (now, rnd) :: rest =>
      let r := RateLimit.createRateLimiter options req
                 {| RateLimit.res_headers := ∅; RateLimit.send := None |} now rnd c in
      let rs := serve options req rest (snd r) in
      (match fst r with
       | Return o => o :: fst rs
       | Throw _ => fst rs
       end, snd rs)
  end.

(** ** A small database used by the examples *)

Module Fixture.

Definition alice : User.t :=
  User.mk "u-alice" "Alice" "alice@example.com" "$2b$10$alice" None 100 100.
Definition bob : User.t :=
  User.mk "u-bob" "Bob" "bob@example.com" "$2b$10$bob" None 200 200.

Definition admin : Role.t := Role.mk "r-admin" "admin" None 10 10.
Definition editor : Role.t := Role.mk "r-editor" "editor" None 20 20.

Definition perm_a : Permission.t := Permission.mk "p-a" "a" None 1 1.
Definition perm_b : Permission.t := Permission.mk "p-b" "b" None 2 2.

(** Alice is admin and editor, Bob is admin; admin grants "a", editor "b". *)
Definition db : Db :=
  {| tb_user := [alice; bob];
     tb_role := [admin; editor];
     tb_permission := [perm_a; perm_b];
     tb_user_role := [UserRole.mk "u-alice" "r-admin"; UserRole.mk "u-alice" "r-editor";
                      UserRole.mk "u-bob" "r-admin"];
     tb_role_permission := [RolePermission.mk "r-admin" "p-a";
                            RolePermission.mk "r-editor" "p-b"] |}.

Definition request_of (who : option Jwt.JWTPayload) : Request :=
  {| user := who; ip := Some "10.0.0.1"; remoteAddress := None;
     params := JObj []; query := JObj []; body := JObj []; headers := JObj [];
     validated := None |}.

Definition as_alice : Request := request_of (Some (Jwt.mkPayload "u-alice" "alice@example.com")).
Definition as_bob : Request := request_of (Some (Jwt.mkPayload "u-bob" "bob@example.com")).
Definition anonymous : Request := request_of None.



Definition fresh_cache : Redis.Client :=
  {| Redis.connected := true; Redis.keyspace := ∅; Redis.faults := [] |}.

Definition blank : RateLimit.Res := {| RateLimit.res_headers := ∅; RateLimit.send := None |}.

(** A params schema that rejects everything with two issues, a body schema
    that accepts everything and coerces it to [{ "n": 1 }]. *)
Definition reject_params : Route.ZodType :=
  fun _ => Route.Failure (Route.mkIssue [Route.Prop_ "id"] "Invalid role ID format")
                         [Route.mkIssue [Route.Prop_ "tags"; Route.Index 0] "Required"].

Definition coerce_body : Route.ZodType :=
  fun _ => Route.Success (JObj [("n", JNum 1)]).

Definition reject_query : Route.ZodType :=
  fun _ => Route.Failure (Route.mkIssue [Route.Prop_ "page"] "Too small") [].

Definition strict_route : Route.ZodValidation :=
  {| Route.s_body := Some coerce_body; Route.s_query := Some reject_query;
     Route.s_params := Some reject_params; Route.s_headers := None |}.

Definition raw_request : Request :=
  {| user := None; ip := Some "10.0.0.1"; remoteAddress := None;
     params := JObj [("id", JStr "x")]; query := JObj [("page", JStr "0")];
     body := JObj [("n", JStr "1")]; headers := JObj [];
     validated := None |}.

(** Two requests per second. *)
Definition two_per_second : RateLimit.RateLimitOptions :=
  {| RateLimit.windowMs := Some 1000; RateLimit.max := Some 2;
     RateLimit.message := None; RateLimit.keyGenerator := None;
     RateLimit.skipSuccessfulRequests := None; RateLimit.skipFailedRequests := None |}.

(** A database that answers three round trips and fails the fourth. *)
Definition fails_on_insert : Prisma :=
  {| tables := db; faults := [false; false; false; true] |}.

(** Toy stand-ins for the external libraries, used to run the login. *)
Definition toy_compare (data encrypted : string) : Completion bool :=
  Return (eqs ("$2b$10$" ++ data) encrypted).

Definition toy_sign (payload : Jwt.JWTPayload) (secret expiresIn : string) : string :=
  Jwt.userId payload ++ "." ++ secret ++ "." ++ expiresIn.

Definition login_request (email password : string) : Request :=
  {| user := None; ip := Some "10.0.0.1"; remoteAddress := None;
     params := JObj []; query := JObj [];
     body := JObj [("email", JStr email); ("password", JStr password)];
     headers := JObj [];
     validated := Some {| v_body := Some (JObj [("email", JStr email);
                                                ("password", JStr password)]);
                          v_query := None; v_params := None; v_headers := None |} |}.

(** Ninety-five users, created one after the other. *)
Definition crowd : Db :=
  {| tb_user := map (fun i => User.mk (pretty i) "user" (pretty i ++ "@example.com")
                                "$2b$10$x" None (Z.of_nat i) (Z.of_nat i)) (seq 0 95);
     tb_role := []; tb_permission := []; tb_user_role := []; tb_role_permission := [] |}.

(** A limiter asked not to count successful requests. *)
Definition skipping : RateLimit.RateLimitOptions :=
  {| RateLimit.windowMs := None; RateLimit.max := None;
     RateLimit.message := None; RateLimit.keyGenerator := None;
     RateLimit.skipSuccessfulRequests := Some true; RateLimit.skipFailedRequests := None |}.

(** Two login attempts from one address against two accounts. *)
Definition attempt (email : string) : Request :=
  {| user := None; ip := Some "10.0.0.1"; remoteAddress := None;
     params := JObj []; query := JObj [];
     body := JObj [("email", JStr email); ("password", JStr "guess")];
     headers := JObj []; validated := None |}.

End Fixture.

(** ** Further notions *)

(** An awaited computation that changes nothing under the key [key']. *)
Definition leaves_key {A : Type} (key' : string) (m : Async Redis.Client A) : Prop :=
  forall c, Redis.keyspace (snd (m c)) !! key' = Redis.keyspace c !! key'.

(** What a cache computation returns satisfies [P], when it returns. *)
Definition yields {A : Type} (P : A -> Prop) (m : Async Redis.Client A) : Prop :=
  forall c a, fst (m c) = Return a -> P a.

(** FURTHER NOTIONS END *)

(** * Properties *)

(** ** Token verification *)

(** C3: for every token, [verifyAccessToken] and [verifyRefreshToken] complete
    normally: with the payload [jwt.verify] decoded when it returns one, with
    [null] when it throws (whatever the error); they never throw. *)
Theorem verify_token_never_throws
  (jwt_verify : string -> string -> Completion Jwt.JWTPayload)
  (JWT_SECRET JWT_REFRESH_SECRET token : string) :
  Jwt.verifyAccessToken jwt_verify JWT_SECRET token
    = Return (match jwt_verify token JWT_SECRET with
              | Return decoded => Some decoded
              | Throw _ => None
              end)
  /\ Jwt.verifyRefreshToken jwt_verify JWT_REFRESH_SECRET token
    = Return (match jwt_verify token JWT_REFRESH_SECRET with
              | Return decoded => Some decoded
              | Throw _ => None
              end).
Proof.
  unfold Jwt.verifyAccessToken, Jwt.verifyRefreshToken, try_catch.
  split.
  - destruct (jwt_verify token JWT_SECRET); reflexivity.
  - destruct (jwt_verify token JWT_REFRESH_SECRET); reflexivity.
Qed.

(** Running awaited calls against a given store. *)
Ltac run_async :=
  unfold try_await, bind, ret, throw, read_only, round_trip, healthy;
  cbn [faults tables fst snd].

(** ** Role and permission middlewares *)

Section Rbac.
Import RoleMiddleware PermissionMiddleware httpStatusCodes.

Lemma eqs_true (a b : string) : eqs a b = true <-> a = b.
Proof. unfold eqs. apply bool_decide_eq_true. Qed.





(** With the database answering, [hasRole(roles)] calls [next()] exactly when
    one of the given names is the name of a role assigned to the user. *)
Lemma hasRole_or_semantics (roles : Names) (req : Request) (d : Db) (userId : string) :
  identity req = Some userId ->
  fst (hasRole roles req (healthy d)) = Return Next
  <-> exists name ur r,
        In name (as_array roles) /\ In ur (tb_user_role d) /\ UserRole.user_id ur = userId /\
        In r (tb_role d) /\ Role.id r = UserRole.role_id ur /\ Role.name r = name.
Proof.
  intros Hid. unfold hasRole. rewrite Hid.
  unfold prisma.userRole_findMany_role. run_async.
  match goal with
  | |- context [existsb ?f ?l] => destruct (existsb f l) eqn:Hany
  end; cbn [negb fst].
  - split; [|reflexivity]. intros _.
    apply existsb_exists in Hany as (name & Hname & Hin).
    apply existsb_exists in Hin as (n & Hn & Heq). apply eqs_true in Heq. subst n.
    apply in_map_iff in Hn as ([ur n] & Hsnd & Hrow). simpl in Hsnd. subst n.
    apply in_flat_map in Hrow as (ur' & Hur & Hrow).
    apply List.filter_In in Hur as [Hur Huid]. apply eqs_true in Huid.
    apply in_map_iff in Hrow as (r & Hpair & Hr). inversion Hpair; subst.
    apply List.filter_In in Hr as [Hr Hrid]. apply eqs_true in Hrid.
    exists (Role.name r), ur, r. tauto.
  - split; [discriminate|].
    intros (name & ur & r & Hname & Hur & Huid & Hr & Hrid & Hrn). exfalso.
    apply not_true_iff_false in Hany. apply Hany.
    apply existsb_exists. exists name. split; [exact Hname|].
    apply existsb_exists. exists name. split; [|apply eqs_true; reflexivity].
    apply in_map_iff. exists (ur, Role.name r). split; [exact Hrn|].
    apply in_flat_map. exists ur. split.
    + apply List.filter_In. split; [exact Hur | apply eqs_true; exact Huid].
    + apply in_map_iff. exists r. split; [reflexivity|].
      apply List.filter_In. split; [exact Hr | apply eqs_true; exact Hrid].
Qed.

(** The two examples of the specification: a user holding only "a" is denied
    ["a","b"]; a user whose roles together grant "a" and "b" is admitted. *)
Example hasPermission_partial_match_denied :
  fst (hasPermission (Many ["a"; "b"]) Fixture.as_bob (healthy Fixture.db))
  = Return (Send 403 (envelope false "Access denied. Required permission(s): a, b" JNull)).
Proof. vm_compute. reflexivity. Qed.

Example hasPermission_union_admitted :
  fst (hasPermission (Many ["a"; "b"]) Fixture.as_alice (healthy Fixture.db)) = Return Next.
Proof. vm_compute. reflexivity. Qed.

Example hasRole_one_of_two_admitted :
  fst (hasRole (Many ["x"; "editor"]) Fixture.as_alice (healthy Fixture.db)) = Return Next.
Proof. vm_compute. reflexivity. Qed.

(** C9: with the database answering and an identity attached,
    [hasPermission([])] calls [next()] and [hasRole([])] answers 403, whatever
    the user's roles are. *)
Theorem empty_list_boundary (req : Request) (d : Db) (userId : string) :
  identity req = Some userId ->
  fst (hasPermission (Many []) req (healthy d)) = Return Next
  /\ fst (hasRole (Many []) req (healthy d))
     = Return (Send 403 (envelope false "Access denied. Required role(s): " JNull)).
Proof.
  intros Hid. unfold hasPermission, hasRole. rewrite Hid.
  unfold prisma.userRole_findMany_role_permissions, prisma.userRole_findMany_role.
  run_async. split; reflexivity.
Qed.

Lemma empty_list_boundary_witness :
  identity Fixture.as_alice = Some "u-alice"
  /\ fst (hasPermission (Many []) Fixture.as_alice (healthy Fixture.db)) = Return Next
  /\ fst (hasRole (Many []) Fixture.as_alice (healthy Fixture.db))
     = Return (Send 403 (envelope false "Access denied. Required role(s): " JNull)).
Proof.
  split; [reflexivity|].
  apply (empty_list_boundary Fixture.as_alice Fixture.db "u-alice").
  reflexivity.
Defined.
End Rbac.

(** ** Infrastructure errors *)

Section InfrastructureErrors.
Import RateLimit RoleMiddleware PermissionMiddleware httpStatusCodes.




End InfrastructureErrors.

(** ** The request validator *)

Section Validator.
Import Route.

Ltac split_schemas :=
  repeat (cbn [f_req f_issues f_validated set_body params query body headers user];
          match goal with
          | |- context [match ?o with Some _ => _ | None => _ end] => is_var o; destruct o
          | |- context [match ?s (?section ?r) with Success _ => _ | Failure _ _ => _ end] =>
              is_var r; destruct (s (section r))
          end).

Lemma positive_length {A : Type} (l : list A) :
  (0 <? Z.of_nat (length l)) = match l with [] => false | _ => true end.
Proof. destruct l; reflexivity. Qed.

(** What the validator does, section by section, in terms of the request as
    it arrived. *)
Lemma zodValidator_outcome (validation : ZodValidation) (req : Request) :
  snd (zodValidator validation req)
  = match collected validation req with
    | [] => Next
    | issues => Send 422 (validation_error issues)
    end.
Proof.
  unfold zodValidator, collected, section_issues, run. rewrite positive_length.
  destruct validation as [sb sq sp sh].
  cbn [schema_of section_of s_params s_query s_body s_headers].
  split_schemas; cbn [app map fst snd];
    rewrite <- ?app_assoc, ?app_nil_r; cbn [app]; reflexivity.
Qed.

Lemma zodValidator_request (validation : ZodValidation) (req : Request) :
  let req' := fst (zodValidator validation req) in
  params req' = params req /\ query req' = query req /\ headers req' = headers req
  /\ user req' = user req
  /\ body req' = default (body req) (parsed_body validation req).
Proof.
  unfold zodValidator, parsed_body, run. rewrite positive_length.
  destruct validation as [sb sq sp sh].
  cbn [schema_of s_params s_query s_body s_headers].
  split_schemas; cbn; repeat split; reflexivity.
Qed.



(** C10: the validator never changes [req.params], [req.query] or
    [req.headers]; it replaces [req.body] by the parsed body whenever the body
    schema accepts the body, also on the path where another section has
    issues and 422 is sent. *)
Theorem validator_body_overwrite_not_atomic (validation : ZodValidation) (req : Request) :
  let req' := fst (zodValidator validation req) in
  params req' = params req /\ query req' = query req /\ headers req' = headers req
  /\ (forall data, parsed_body validation req = Some data ->
        body req' = data
        /\ (collected validation req <> [] ->
            snd (zodValidator validation req)
            = Send 422 (validation_error (collected validation req))))
  /\ (parsed_body validation req = None -> body req' = body req).
Proof.
  destruct (zodValidator_request validation req) as (Hp & Hq & Hh & _ & Hb).
  cbv zeta. repeat split; try assumption.
  - rewrite Hb, H. reflexivity.
  - rewrite zodValidator_outcome. destruct (collected validation req); congruence.
  - intros Hnone. rewrite Hb, Hnone. reflexivity.
Qed.

Lemma validator_body_overwrite_not_atomic_witness :
  body Fixture.raw_request = JObj [("n", JStr "1")]
  /\ body (fst (zodValidator Fixture.strict_route Fixture.raw_request)) = JObj [("n", JNum 1)]
  /\ exists issues, snd (zodValidator Fixture.strict_route Fixture.raw_request)
                    = Send 422 (validation_error issues).
Proof.
  split; [reflexivity|].
  destruct (validator_body_overwrite_not_atomic Fixture.strict_route Fixture.raw_request)
    as (_ & _ & _ & Hbody & _).
  destruct (Hbody (JObj [("n", JNum 1)]) eq_refl) as [Hb Hout].
  split; [exact Hb|].
  eexists. apply Hout. vm_compute. discriminate.
Defined.

End Validator.

(** ** Login *)

Section Login.
Import httpStatusCodes.

Variable bcrypt_compare : string -> string -> Completion bool.
Variable jwt_sign : Jwt.JWTPayload -> string -> string -> string.
Variable JWT_SECRET JWT_EXPIRES_IN JWT_REFRESH_SECRET JWT_REFRESH_EXPIRES_IN : string.

Local Abbreviation login :=
  (AuthController.login bcrypt_compare jwt_sign JWT_SECRET JWT_EXPIRES_IN
     JWT_REFRESH_SECRET JWT_REFRESH_EXPIRES_IN).

Lemma head_filter_In {A : Type} (f : A -> bool) (l : list A) (x : A) :
  head (List.filter f l) = Some x -> In x l /\ f x = true.
Proof.
  intros H. apply List.filter_In.
  destruct (List.filter f l) as [|y rest]; [discriminate|].
  injection H as ->. left. reflexivity.
Qed.

Lemma head_filter_None {A : Type} (f : A -> bool) (l : list A) :
  (forall x, In x l -> f x = false) -> head (List.filter f l) = None.
Proof.
  intros H. induction l as [|y l IH]; [reflexivity|]. simpl.
  rewrite (H y (or_introl eq_refl)). apply IH. intros x Hx. apply H. right. exact Hx.
Qed.

(** C8: a login whose email belongs to no user and a login whose email
    belongs to a user but whose password does not match the stored hash are
    answered alike: status 401 with the envelope
    [{ success: false, message: "Invalid credentials", data: null }]. *)
Theorem login_failures_indistinguishable
  (d1 d2 : Db) (req1 req2 : Request) (data1 data2 : AuthService.LoginInput) :
  AuthController.as_LoginInput req1 = Return data1 ->
  AuthController.as_LoginInput req2 = Return data2 ->
  (forall u, In u (tb_user d1) -> User.email u <> AuthService.email data1) ->
  (exists u, In u (tb_user d2) /\ User.email u = AuthService.email data2) ->
  (forall u, In u (tb_user d2) -> User.email u = AuthService.email data2 ->
             bcrypt_compare (AuthService.password data2) (User.password u) = Return false) ->
  fst (login req1 (healthy d1)) = Return (Send 401 (envelope false "Invalid credentials" JNull))
  /\ fst (login req2 (healthy d2)) = fst (login req1 (healthy d1)).
Proof.
  intros Hreq1 Hreq2 Hnone (u & Hu & Hemail) Hwrong.
  assert (H1 : fst (login req1 (healthy d1))
               = Return (Send 401 (envelope false "Invalid credentials" JNull))).
  { unfold login, AuthController.login, AuthService.login, prisma.user_findUnique_email.
    run_async. rewrite Hreq1. cbn [fst snd faults tables].
    rewrite head_filter_None; [reflexivity|].
    intros x Hx. apply not_true_iff_false. rewrite eqs_true. auto. }
  split; [exact H1|]. rewrite H1.
  unfold login, AuthController.login, AuthService.login, prisma.user_findUnique_email,
    AuthService.await_bcrypt.
  run_async. rewrite Hreq2. cbn [fst snd faults tables].
  destruct (head (List.filter (fun u0 => eqs (User.email u0) (AuthService.email data2))
                    (tb_user d2))) as [found|] eqn:Hhead.
  - apply head_filter_In in Hhead as [Hin Hmatch]. apply eqs_true in Hmatch.
    rewrite (Hwrong found Hin Hmatch). reflexivity.
  - exfalso.
    assert (Hin : In u (List.filter (fun u0 => eqs (User.email u0) (AuthService.email data2))
                          (tb_user d2))).
    { apply List.filter_In. split; [exact Hu | apply eqs_true; exact Hemail]. }
    destruct (List.filter _ (tb_user d2)); [destruct Hin | discriminate].
Qed.

End Login.

Lemma login_failures_indistinguishable_witness :
  fst (AuthController.login Fixture.toy_compare Fixture.toy_sign "s" "7d" "r" "30d"
         (Fixture.login_request "nobody@example.com" "alice") (healthy Fixture.db))
  = Return (Send 401 (envelope false "Invalid credentials" JNull))
  /\ fst (AuthController.login Fixture.toy_compare Fixture.toy_sign "s" "7d" "r" "30d"
            (Fixture.login_request "alice@example.com" "wrong") (healthy Fixture.db))
     = fst (AuthController.login Fixture.toy_compare Fixture.toy_sign "s" "7d" "r" "30d"
            (Fixture.login_request "nobody@example.com" "alice") (healthy Fixture.db)).
Proof.
  apply (login_failures_indistinguishable Fixture.toy_compare Fixture.toy_sign "s" "7d" "r" "30d"
           Fixture.db Fixture.db
           (Fixture.login_request "nobody@example.com" "alice")
           (Fixture.login_request "alice@example.com" "wrong")
           (AuthService.mkLogin "nobody@example.com" "alice")
           (AuthService.mkLogin "alice@example.com" "wrong")).
  - reflexivity.
  - reflexivity.
  - intros u [<- | [<- | []]]; vm_compute; discriminate.
  - exists Fixture.alice. split; [left; reflexivity | reflexivity].
  - intros u [<- | [<- | []]]; vm_compute; intros; try reflexivity; discriminate.
Defined.

(** The right credentials are answered with 200 and a token pair. *)
Example login_succeeds :
  fst (AuthController.login Fixture.toy_compare Fixture.toy_sign "s" "7d" "r" "30d"
         (Fixture.login_request "alice@example.com" "alice") (healthy Fixture.db))
  = Return (Send 200 (envelope true "Login successful"
              (JObj [("access_token", JStr "u-alice.s.7d");
                     ("refresh_token", JStr "u-alice.r.30d");
                     ("token_type", JStr "Bearer");
                     ("expires_in", JStr "7d")]))).
Proof. vm_compute. reflexivity. Qed.

(** ** Paginated lists *)

Section Pagination.

Lemma ceil_div_spec (a b : Z) :
  0 < b -> (ceil_div a b - 1) * b < a <= ceil_div a b * b.
Proof.
  intros Hb. unfold ceil_div.
  pose proof (Z.div_mod (- a) b ltac:(lia)) as Hdm.
  pose proof (Z.mod_pos_bound (- a) b Hb) as Hm.
  nia.
Qed.










(** The example of the specification: 95 rows in pages of 10 make 10 pages;
    page 10 has no next page and a previous one, page 1 has no previous one. *)
Example pagination_95_by_10 :
  (snd <$> returned (fst (UsersService.getAllUsers
                            {| p_page := Some 10; p_per_page := Some 10 |}
                            (healthy Fixture.crowd))))
  = Some {| total := 95; page := 10; per_page := 10; total_pages := 10;
            has_next_page := false; has_prev_page := true |}
  /\ (snd <$> returned (fst (UsersService.getAllUsers
                               {| p_page := Some 1; p_per_page := Some 10 |}
                               (healthy Fixture.crowd))))
  = Some {| total := 95; page := 1; per_page := 10; total_pages := 10;
            has_next_page := true; has_prev_page := false |}.
Proof. vm_compute. split; reflexivity. Qed.

(** Both services read an absent or zero parameter as page 1 and 10 rows. *)
Example pagination_defaults :
  (snd <$> returned (fst (UsersService.getAllUsers
                            {| p_page := None; p_per_page := Some 0 |}
                            (healthy Fixture.crowd))))
  = Some {| total := 95; page := 1; per_page := 10; total_pages := 10;
            has_next_page := true; has_prev_page := false |}.
Proof. vm_compute. reflexivity. Qed.

End Pagination.

(** ** Assigning permissions to a role *)

Section AssignPermissions.
Import RolesService.

(** C6, as stated, fails twice.  "Atomically": the delete and the insert are
    two round trips outside any transaction; when the insert fails, the role
    (which had "p-a" and was to get "p-b") is left with no permission.
    "Otherwise replaces": a list that names the existing permission "p-b"
    twice is rejected as not found, because the check compares the number of
    rows found with the number of ids supplied. *)
Lemma assignPermissions_claim_fails :
  (permissions_of Fixture.db "r-admin" = ["p-a"]
   /\ fst (assignPermissions "r-admin" {| permission_ids := ["p-b"] |} Fixture.fails_on_insert)
      = Throw connection_error
   /\ permissions_of
        (tables (snd (assignPermissions "r-admin" {| permission_ids := ["p-b"] |}
                        Fixture.fails_on_insert))) "r-admin" = [])
  /\ (existsb (fun r => eqs (Role.id r) "r-admin") (tb_role Fixture.db) = true
      /\ existsb (fun p => eqs (Permission.id p) "p-b") (tb_permission Fixture.db) = true
      /\ fst (assignPermissions "r-admin" {| permission_ids := ["p-b"; "p-b"] |}
                (healthy Fixture.db))
         = Throw (mkError "One or more permissions not found")
      /\ permissions_of
           (tables (snd (assignPermissions "r-admin" {| permission_ids := ["p-b"; "p-b"] |}
                           (healthy Fixture.db)))) "r-admin" = ["p-a"]).
Proof. vm_compute. repeat split; reflexivity. Qed.

Example assign_p1_then_p2 :
  permissions_of
    (tables (snd (assignPermissions "r-admin" {| permission_ids := ["p-b"] |}
       (healthy (tables (snd (assignPermissions "r-admin" {| permission_ids := ["p-a"] |}
                                (healthy Fixture.db)))))))) "r-admin" = ["p-b"].
Proof. vm_compute. reflexivity. Qed.

Lemma existsb_eqs (a : string) (l : list string) : existsb (eqs a) l = true <-> In a l.
Proof.
  rewrite existsb_exists. split.
  - intros (x & Hx & Heq). apply eqs_true in Heq. subst. exact Hx.
  - intros H. exists a. split; [exact H | apply eqs_true; reflexivity].
Qed.

Lemma same_pair_true (a b : RolePermission.t) : prisma.same_pair a b = true <-> pair_key a = pair_key b.
Proof.
  unfold prisma.same_pair, pair_key. rewrite andb_true_iff, !eqs_true. split.
  - intros [-> ->]. reflexivity.
  - intros H. injection H. auto.
Qed.

Lemma unique_pairs_NoDup (rows : list RolePermission.t) :
  prisma.unique_pairs rows = true <-> List.NoDup (map pair_key rows).
Proof.
  induction rows as [|r rows IH]; simpl.
  - split; [constructor | reflexivity].
  - rewrite andb_true_iff, negb_true_iff, IH, List.NoDup_cons_iff.
    assert (Hin : existsb (prisma.same_pair r) rows = false <-> ~ In (pair_key r) (map pair_key rows)).
    { rewrite <- not_true_iff_false, existsb_exists, in_map_iff. split.
      - intros Hn (x & Hk & Hx). apply Hn. exists x. split; [exact Hx|].
        apply same_pair_true. symmetry. exact Hk.
      - intros Hn (x & Hx & Hs). apply Hn. exists x. split; [|exact Hx].
        apply same_pair_true in Hs. symmetry. exact Hs. }
    rewrite Hin. reflexivity.
Qed.

Lemma NoDup_map_filter {A B : Type} (g : A -> B) (f : A -> bool) (l : list A) :
  List.NoDup (map g l) -> List.NoDup (map g (List.filter f l)).
Proof.
  induction l as [|x l IH]; simpl; intros Hnd; [constructor|].
  apply List.NoDup_cons_iff in Hnd as [Hx Hnd].
  destruct (f x); simpl; [|apply IH; exact Hnd].
  apply List.NoDup_cons_iff. split; [|apply IH; exact Hnd].
  intros Hin. apply Hx. apply in_map_iff in Hin as (y & Hy & Hin).
  apply in_map_iff. exists y. split; [exact Hy|]. apply List.filter_In in Hin. tauto.
Qed.

Lemma filter_length_all {A : Type} (f : A -> bool) (l : list A) :
  length (List.filter f l) = length l <-> forall x, In x l -> f x = true.
Proof.
  induction l as [|x l IH]; simpl.
  - split; [intros _ y [] | reflexivity].
  - pose proof (List.filter_length_le f l) as Hle.
    destruct (f x) eqn:Hfx; simpl.
    + split.
      * intros Hlen y [<- | Hy]; [exact Hfx|]. apply IH; [lia | exact Hy].
      * intros Hall. f_equal. apply IH. intros y Hy. apply Hall. right. exact Hy.
    + split; [lia|]. intros Hall. specialize (Hall x (or_introl eq_refl)). congruence.
Qed.

(** With distinct ids and a primary key, the rows found are as many as the
    supplied ids that exist. *)
Lemma found_count (d : Db) (ids : list string) :
  List.NoDup (map Permission.id (tb_permission d)) -> List.NoDup ids ->
  length (List.filter (fun p => existsb (eqs (Permission.id p)) ids) (tb_permission d))
  = length (List.filter (fun i => existsb (fun p => eqs (Permission.id p) i) (tb_permission d))
              ids).
Proof.
  intros Hpk Hids.
  rewrite <- (length_map Permission.id).
  apply Permutation_length. apply Permutation.NoDup_Permutation.
  - apply NoDup_map_filter. exact Hpk.
  - apply List.NoDup_filter. exact Hids.
  - intros x. rewrite in_map_iff, List.filter_In, existsb_exists. split.
    + intros (p & <- & Hp). apply List.filter_In in Hp as [Hp Hin].
      apply existsb_eqs in Hin. split; [exact Hin|].
      exists p. split; [exact Hp | apply eqs_true; reflexivity].
    + intros (Hx & p & Hp & Heq). apply eqs_true in Heq. exists p. split; [exact Heq|].
      apply List.filter_In. split; [exact Hp|]. apply existsb_eqs. rewrite Heq. exact Hx.
Qed.

Lemma found_all_iff (d : Db) (ids : list string) :
  List.NoDup (map Permission.id (tb_permission d)) -> List.NoDup ids ->
  (length (List.filter (fun p => existsb (eqs (Permission.id p)) ids) (tb_permission d))
   = length ids)
  <-> forall id, In id ids -> permission_exists d id.
Proof.
  intros Hpk Hids. rewrite found_count by assumption. rewrite filter_length_all.
  unfold permission_exists. split; intros H id Hid.
  - specialize (H id Hid). apply existsb_exists in H as (p & Hp & Heq).
    apply eqs_true in Heq. eauto.
  - destruct (H id Hid) as (p & Hp & Heq). apply existsb_exists.
    exists p. split; [exact Hp | apply eqs_true; exact Heq].
Qed.

Lemma role_lookup (d : Db) (roleId : string) :
  match head (List.filter (fun r => eqs (Role.id r) roleId) (tb_role d)) with
  | Some r => In r (tb_role d) /\ Role.id r = roleId
  | None => ~ role_exists d roleId
  end.
Proof.
  destruct (head _) as [r|] eqn:Hhead.
  - apply head_filter_In in Hhead as [Hin Heq]. apply eqs_true in Heq. tauto.
  - intros (r & Hr & Heq).
    assert (Hin : In r (List.filter (fun r => eqs (Role.id r) roleId) (tb_role d))).
    { apply List.filter_In. split; [exact Hr | apply eqs_true; exact Heq]. }
    destruct (List.filter _ (tb_role d)); [destruct Hin | discriminate].
Qed.

Lemma replacement_unique (d : Db) (roleId : string) (ids : list string) :
  prisma.unique_pairs (tb_role_permission d) = true -> List.NoDup ids ->
  prisma.unique_pairs (kept_rows d roleId ++ new_rows roleId ids) = true.
Proof.
  intros Huniq Hids. apply unique_pairs_NoDup. rewrite map_app.
  apply List.NoDup_app.
  - apply NoDup_map_filter. apply unique_pairs_NoDup. exact Huniq.
  - unfold new_rows. rewrite map_map. unfold pair_key. simpl.
    apply List.NoDup_map_NoDup_ForallPairs; [|exact Hids].
    intros a b _ _ Hab. injection Hab. auto.
  - intros k Hk Hnew.
    apply in_map_iff in Hk as (r & <- & Hr). apply List.filter_In in Hr as [_ Hr].
    apply negb_true_iff, not_true_iff_false in Hr. apply Hr. apply eqs_true.
    unfold new_rows in Hnew. rewrite map_map in Hnew.
    apply in_map_iff in Hnew as (i & Hi & _). unfold pair_key in Hi. simpl in Hi.
    injection Hi. auto.
Qed.

Lemma replacement_references (d : Db) (roleId : string) (ids : list string) :
  role_exists d roleId -> (forall id, In id ids -> permission_exists d id) ->
  forallb (prisma.references_exist (prisma.set_role_permission (kept_rows d roleId) d))
          (new_rows roleId ids) = true.
Proof.
  intros (r & Hr & Hrid) Hall. apply forallb_forall. intros row Hrow.
  apply in_map_iff in Hrow as (i & <- & Hi).
  unfold prisma.references_exist. cbn. apply andb_true_iff. split.
  - apply existsb_exists. exists r. split; [exact Hr | apply eqs_true; exact Hrid].
  - destruct (Hall i Hi) as (p & Hp & Hpid). apply existsb_exists.
    exists p. split; [exact Hp | apply eqs_true; exact Hpid].
Qed.

Lemma bind_healthy {A B : Type} (run : Db -> Completion A * Db) (k : A -> Async Prisma B)
  (d : Db) :
  bind (round_trip run) k (healthy d)
  = match fst (run d) with
    | Return a => k a (healthy (snd (run d)))
    | Throw e => (Throw e, healthy (snd (run d)))
    end.
Proof. unfold bind, round_trip, healthy. cbn [faults tables]. reflexivity. Qed.

Lemma assignPermissions_success (d : Db) (roleId : string) (ids : list string) :
  integrity d -> List.NoDup ids -> role_exists d roleId ->
  (forall id, In id ids -> permission_exists d id) ->
  exists data,
    assignPermissions roleId {| permission_ids := ids |} (healthy d)
    = (Return data,
       healthy (prisma.set_role_permission (kept_rows d roleId ++ new_rows roleId ids) d)).
Proof.
  intros (Hrole_pk & Hperm_pk & Huniq) Hids Hrole Hall.
  unfold assignPermissions, getRoleById, prisma.role_findUnique, prisma.permission_findMany_in,
    prisma.rolePermission_deleteMany, prisma.rolePermission_createMany,
    prisma.role_findUnique_include, read_only.
  cbn [permission_ids].
  rewrite bind_healthy. cbn [fst snd].
  pose proof (role_lookup d roleId) as Hlookup.
  destruct (head (List.filter (fun r => eqs (Role.id r) roleId) (tb_role d))) as [r|] eqn:Hhead;
    [|contradiction].
  rewrite bind_healthy. cbn [fst snd].
  assert (Hlen : (length (List.filter (fun p => existsb (eqs (Permission.id p)) ids)
                            (tb_permission d)) =? length ids)%nat = true).
  { apply Nat.eqb_eq. apply found_all_iff; assumption. }
  rewrite Hlen. cbn [negb].
  rewrite bind_healthy. cbn [fst snd].
  rewrite bind_healthy. cbn [fst snd tb_role_permission prisma.set_role_permission].
  fold (kept_rows d roleId). fold (new_rows roleId ids).
  rewrite replacement_unique by assumption. cbn [negb].
  rewrite replacement_references by assumption. cbn [negb fst snd].
  rewrite bind_healthy. cbn [fst snd tb_role prisma.set_role_permission].
  rewrite Hhead. cbn [fmap option_fmap option_map].
  eexists. reflexivity.
Qed.

Lemma assignPermissions_no_role (d : Db) (roleId : string) (ids : list string) :
  ~ role_exists d roleId ->
  assignPermissions roleId {| permission_ids := ids |} (healthy d)
  = (Throw (mkError "Role not found"), healthy d).
Proof.
  intros Hrole. unfold assignPermissions, prisma.role_findUnique, read_only.
  rewrite bind_healthy. cbn [fst snd].
  pose proof (role_lookup d roleId) as Hlookup.
  destruct (head (List.filter (fun r => eqs (Role.id r) roleId) (tb_role d))) as [r|].
  - exfalso. apply Hrole. exists r. exact Hlookup.
  - reflexivity.
Qed.

Lemma assignPermissions_missing_permission (d : Db) (roleId : string) (ids : list string) :
  integrity d -> List.NoDup ids -> role_exists d roleId ->
  (exists id, In id ids /\ ~ permission_exists d id) ->
  assignPermissions roleId {| permission_ids := ids |} (healthy d)
  = (Throw (mkError "One or more permissions not found"), healthy d).
Proof.
  intros (_ & Hperm_pk & _) Hids Hrole (id & Hid & Hmissing).
  unfold assignPermissions, prisma.role_findUnique, prisma.permission_findMany_in, read_only.
  cbn [permission_ids].
  rewrite bind_healthy. cbn [fst snd].
  pose proof (role_lookup d roleId) as Hlookup.
  destruct (head (List.filter (fun r => eqs (Role.id r) roleId) (tb_role d))) as [r|];
    [|contradiction].
  rewrite bind_healthy. cbn [fst snd].
  assert (Hlen : (length (List.filter (fun p => existsb (eqs (Permission.id p)) ids)
                            (tb_permission d)) =? length ids)%nat = false).
  { apply Nat.eqb_neq. intros Heq. apply Hmissing.
    apply (proj1 (found_all_iff d ids Hperm_pk Hids) Heq). exact Hid. }
  rewrite Hlen. reflexivity.
Qed.

Lemma permissions_of_replaced (d : Db) (roleId other : string) (ids : list string) :
  permissions_of (prisma.set_role_permission (kept_rows d roleId ++ new_rows roleId ids) d) other
  = if eqs other roleId then ids else permissions_of d other.
Proof.
  unfold permissions_of. cbn [tb_role_permission prisma.set_role_permission].
  rewrite List.filter_app, map_app.
  destruct (eqs other roleId) eqn:Hother.
  - apply eqs_true in Hother. subst other.
    assert (Hkept : List.filter (fun rp => eqs (RolePermission.role_id rp) roleId)
                      (kept_rows d roleId) = []).
    { unfold kept_rows. induction (tb_role_permission d) as [|rp rows IH]; [reflexivity|].
      simpl. destruct (eqs (RolePermission.role_id rp) roleId) eqn:E; simpl; [exact IH|].
      rewrite E. exact IH. }
    rewrite Hkept. simpl. unfold new_rows.
    induction ids as [|i ids IH]; [reflexivity|]. simpl.
    assert (Hself : eqs roleId roleId = true) by (apply eqs_true; reflexivity).
    rewrite Hself. simpl. f_equal. exact IH.
  - assert (Hnew : List.filter (fun rp => eqs (RolePermission.role_id rp) other)
                     (new_rows roleId ids) = []).
    { unfold new_rows. induction ids as [|i ids IH]; [reflexivity|]. simpl.
      assert (Hne : eqs roleId other = false).
      { apply not_true_iff_false. rewrite eqs_true. intros ->.
        apply not_true_iff_false in Hother. apply Hother. apply eqs_true. reflexivity. }
      rewrite Hne. exact IH. }
    rewrite Hnew, app_nil_r. f_equal. unfold kept_rows.
    induction (tb_role_permission d) as [|rp rows IH]; [reflexivity|]. simpl.
    destruct (eqs (RolePermission.role_id rp) roleId) eqn:E; simpl.
    + apply eqs_true in E.
      assert (Hne : eqs (RolePermission.role_id rp) other = false).
      { rewrite E. apply not_true_iff_false. rewrite eqs_true. intros ->.
        apply not_true_iff_false in Hother. apply Hother. apply eqs_true. reflexivity. }
      rewrite Hne. exact IH.
    + destruct (eqs (RolePermission.role_id rp) other); [f_equal|]; exact IH.
Qed.

Lemma replaced_integrity (d : Db) (roleId : string) (ids : list string) :
  integrity d -> List.NoDup ids ->
  integrity (prisma.set_role_permission (kept_rows d roleId ++ new_rows roleId ids) d).
Proof.
  intros (Hr & Hp & Hu) Hids. unfold integrity.
  cbn [tb_role tb_permission tb_role_permission prisma.set_role_permission].
  repeat split; [exact Hr | exact Hp | apply replacement_unique; assumption].
Qed.

(** C6, amended: for a list of distinct ids, on a database that answers and
    satisfies its constraints, [assignPermissions] rejects, changing nothing,
    when the role does not exist or a supplied id does not exist; otherwise
    it succeeds and the role's permissions are exactly the supplied ids, the
    other roles keep theirs, and a further assignment of [[p2]] leaves only
    [p2]. *)
Theorem assignPermissions_replaces (d : Db) (roleId : string) (ids : list string) :
  integrity d -> List.NoDup ids ->
  let run := assignPermissions roleId {| permission_ids := ids |} (healthy d) in
  (~ role_exists d roleId ->
   fst run = Throw (mkError "Role not found") /\ tables (snd run) = d)
  /\ (role_exists d roleId -> (exists id, In id ids /\ ~ permission_exists d id) ->
      fst run = Throw (mkError "One or more permissions not found") /\ tables (snd run) = d)
  /\ (role_exists d roleId -> (forall id, In id ids -> permission_exists d id) ->
      (exists data, fst run = Return data)
      /\ permissions_of (tables (snd run)) roleId = ids
      /\ (forall other, other <> roleId ->
            permissions_of (tables (snd run)) other = permissions_of d other)
      /\ forall p2, permission_exists d p2 ->
           permissions_of
             (tables (snd (assignPermissions roleId {| permission_ids := [p2] |}
                             (healthy (tables (snd run)))))) roleId = [p2]).
Proof.
  intros Hint Hids run. subst run. split; [|split].
  - intros Hrole. rewrite assignPermissions_no_role by assumption. split; reflexivity.
  - intros Hrole Hmissing.
    rewrite assignPermissions_missing_permission by assumption. split; reflexivity.
  - intros Hrole Hall.
    destruct (assignPermissions_success d roleId ids Hint Hids Hrole Hall) as (data & Hrun).
    rewrite Hrun. cbn [fst snd tables healthy].
    split; [exists data; reflexivity|]. split; [|split].
    + rewrite permissions_of_replaced.
      assert (Hself : eqs roleId roleId = true) by (apply eqs_true; reflexivity).
      rewrite Hself. reflexivity.
    + intros other Hother. rewrite permissions_of_replaced.
      assert (Hne : eqs other roleId = false)
        by (apply not_true_iff_false; rewrite eqs_true; exact Hother).
      rewrite Hne. reflexivity.
    + intros p2 Hp2.
      set (d' := prisma.set_role_permission (kept_rows d roleId ++ new_rows roleId ids) d).
      assert (Hint' : integrity d') by (apply replaced_integrity; assumption).
      assert (Hrole' : role_exists d' roleId) by exact Hrole.
      assert (Hall' : forall id, In id [p2] -> permission_exists d' id).
      { intros id [<- | []]. exact Hp2. }
      assert (Hnd : List.NoDup [p2]) by (constructor; [intros [] | constructor]).
      destruct (assignPermissions_success d' roleId [p2] Hint' Hnd Hrole' Hall')
        as (data' & Hrun').
      rewrite Hrun'. cbn [fst snd tables healthy].
      rewrite permissions_of_replaced.
      assert (Hself : eqs roleId roleId = true) by (apply eqs_true; reflexivity).
      rewrite Hself. reflexivity.
Qed.

Lemma assignPermissions_replaces_witness :
  permissions_of Fixture.db "r-admin" = ["p-a"]
  /\ permissions_of
       (tables (snd (assignPermissions "r-admin" {| permission_ids := ["p-b"; "p-a"] |}
                       (healthy Fixture.db)))) "r-admin" = ["p-b"; "p-a"].
Proof.
  split; [reflexivity|].
  assert (Hint : integrity Fixture.db).
  { unfold integrity. repeat split; try reflexivity;
      repeat (constructor; [simpl; intuition discriminate|]); constructor. }
  assert (Hids : List.NoDup ["p-b"; "p-a"]).
  { repeat (constructor; [simpl; intuition discriminate|]); constructor. }
  destruct (assignPermissions_replaces Fixture.db "r-admin" ["p-b"; "p-a"] Hint Hids)
    as (_ & _ & Hok).
  apply Hok.
  - exists Fixture.admin. split; [left; reflexivity | reflexivity].
  - intros id [<- | [<- | []]].
    + exists Fixture.perm_b. split; [right; left; reflexivity | reflexivity].
    + exists Fixture.perm_a. split; [left; reflexivity | reflexivity].
Defined.

End AssignPermissions.

(** ** The rate limiter *)

Section RateLimiter.
Import RateLimit.

Lemma bind_serving {A B : Type} (run : gmap string Redis.Key -> A * gmap string Redis.Key)
  (k : A -> Async Redis.Client B) (ks : gmap string Redis.Key) :
  bind (Redis.command run) k (serving ks) = k (fst (run ks)) (serving (snd (run ks))).
Proof. reflexivity. Qed.

Lemma bind_getRedis_serving {B : Type} (k : unit -> Async Redis.Client B)
  (ks : gmap string Redis.Key) :
  bind Redis.getRedis k (serving ks) = k tt (serving ks).
Proof. reflexivity. Qed.

Lemma purged_after_purge (now windowMs : Z) (ks : gmap string Redis.Key) (key : string) :
  purged now windowMs ks key
  = match after_purge now windowMs ks key with
    | Some k => Redis.zset k
    | None => ∅
    end.
Proof.
  unfold purged, after_purge, window_entries.
  destruct (Redis.live now ks key) as [k|]; [|apply map_filter_empty].
  cbv zeta. destruct (decide _) as [-> | _]; reflexivity.
Qed.

Lemma live_Some (now : Z) (ks : gmap string Redis.Key) (key : string) (k : Redis.Key) :
  Redis.live now ks key = Some k ->
  ks !! key = Some k /\ forall e, Redis.expire_at k = Some e -> now < e.
Proof.
  unfold Redis.live. destruct (ks !! key) as [k0|]; [|discriminate].
  destruct (Redis.expire_at k0) as [e|] eqn:He.
  - destruct (e <=? now) eqn:Hexp; [discriminate|]. intros [= <-].
    split; [reflexivity|]. intros e' He'. apply Z.leb_gt in Hexp. congruence.
  - intros [= <-]. split; [reflexivity|]. congruence.
Qed.

Lemma live_insert (now : Z) (ks : gmap string Redis.Key) (key : string) (k : Redis.Key) :
  (forall e, Redis.expire_at k = Some e -> now < e) ->
  Redis.live now (<[key := k]> ks) key = Some k.
Proof.
  intros Hfresh. unfold Redis.live. rewrite lookup_insert_eq.
  destruct (Redis.expire_at k) as [e|]; [|reflexivity].
  specialize (Hfresh e eq_refl). destruct (e <=? now) eqn:Hexp; [|reflexivity].
  apply Z.leb_le in Hexp. lia.
Qed.

(** The purge leaves [after_purge] under the key and the other keys alone. *)
Lemma purge_effect (now windowMs : Z) (ks : gmap string Redis.Key) (key : string) :
  let ks1 := snd (Redis.ZREMRANGEBYSCORE now key 0 (now - windowMs) ks) in
  ks1 !! key = after_purge now windowMs ks key
  /\ Redis.live now ks1 key = after_purge now windowMs ks key
  /\ (forall key', key' <> key -> ks1 !! key' = ks !! key').
Proof.
  cbv zeta. unfold Redis.ZREMRANGEBYSCORE, after_purge.
  destruct (Redis.live now ks key) as [k|] eqn:Hlive; cbn [snd].
  - apply live_Some in Hlive as [_ Hfresh]. unfold Redis.store. cbn [Redis.zset].
    destruct (decide _) as [Hempty | Hfull].
    + unfold Redis.live. rewrite lookup_delete_eq.
      repeat split. intros key' Hne. apply lookup_delete_ne. congruence.
    + rewrite lookup_insert_eq. rewrite live_insert by exact Hfresh.
      repeat split. intros key' Hne. apply lookup_insert_ne. congruence.
  - unfold Redis.live. rewrite lookup_delete_eq.
    repeat split. intros key' Hne. apply lookup_delete_ne. congruence.
Qed.

Lemma count_after_purge (now windowMs : Z) (ks ks1 : gmap string Redis.Key) (key : string) :
  Redis.live now ks1 key = after_purge now windowMs ks key ->
  Redis.ZCARD now key ks1 = (Z.of_nat (size (purged now windowMs ks key)), ks1).
Proof.
  intros Hlive. unfold Redis.ZCARD. rewrite Hlive, purged_after_purge.
  destruct (after_purge now windowMs ks key); [reflexivity|].
  rewrite map_size_empty. reflexivity.
Qed.

(** Recording the request and refreshing the expiry. *)
Lemma record_effect (now windowMs seconds : Z) (ks ks1 : gmap string Redis.Key)
  (key value : string) :
  Redis.live now ks1 key = after_purge now windowMs ks key ->
  0 < seconds ->
  let ks3 := snd (Redis.EXPIRE now key seconds (snd (Redis.ZADD now key now value ks1))) in
  ks3 !! key = Some {| Redis.zset := <[value := now]> (purged now windowMs ks key);
                       Redis.expire_at := Some (now + seconds * 1000) |}
  /\ (forall key', key' <> key -> ks3 !! key' = ks1 !! key').
Proof.
  intros Hlive Hsec. cbv zeta. rewrite purged_after_purge.
  unfold Redis.ZADD. rewrite Hlive.
  assert (Hpos : (seconds <=? 0) = false) by (apply Z.leb_gt; exact Hsec).
  destruct (after_purge now windowMs ks key) as [k1|] eqn:Hafter; cbn [snd].
  - assert (Hfresh : forall e, Redis.expire_at k1 = Some e -> now < e).
    { apply live_Some in Hlive. tauto. }
    unfold Redis.EXPIRE. rewrite live_insert by exact Hfresh. rewrite Hpos. cbn [snd Redis.zset].
    rewrite lookup_insert_eq. split; [reflexivity|].
    intros key' Hne. rewrite !lookup_insert_ne by congruence. reflexivity.
  - unfold Redis.EXPIRE. rewrite live_insert by (cbn; discriminate).
    rewrite Hpos. cbn [snd Redis.zset].
    rewrite lookup_insert_eq, insert_empty. split; [reflexivity|].
    intros key' Hne. rewrite !lookup_insert_ne by congruence. reflexivity.
Qed.

Lemma ceil_div_pos (a b : Z) : 0 < a -> 0 < b -> 0 < ceil_div a b.
Proof. intros Ha Hb. pose proof (ceil_div_spec a b Hb). nia. Qed.

Lemma limiter_reject (options : RateLimitOptions) (req : Request) (res : Res)
  (now : Z) (rnd : string) (ks : gmap string Redis.Key) :
  let opts := spread defaultOptions options in
  let key := "rate-limit:" ++ o_keyGenerator opts req in
  o_max opts <= Z.of_nat (size (purged now (o_windowMs opts) ks key)) ->
  exists ks' resetTime,
    createRateLimiter options req res now rnd (serving ks)
    = (Return (setHeader "Retry-After" (toString resetTime)
                 (setHeader "X-RateLimit-Reset" (toString resetTime)
                    (setHeader "X-RateLimit-Remaining" "0"
                       (setHeader "X-RateLimit-Limit" (toString (o_max opts)) res))),
               Send 429 (JObj [("message", JStr (o_message opts));
                               ("retryAfter", JNum resetTime)])),
       serving ks')
    /\ ks' !! key = after_purge now (o_windowMs opts) ks key
    /\ (forall key', key' <> key -> ks' !! key' = ks !! key').
Proof.
  intros opts key Hfull.
  destruct (purge_effect now (o_windowMs opts) ks key) as (Hkey & Hlive & Hother).
  unfold createRateLimiter, try_await. fold opts. fold key.
  unfold Redis.zRemRangeByScore, Redis.zCard, Redis.pTTL.
  rewrite bind_getRedis_serving, bind_serving, bind_serving.
  rewrite (count_after_purge now (o_windowMs opts) ks _ key Hlive). cbn [fst snd].
  apply Z.leb_le in Hfull. rewrite Hfull.
  rewrite bind_serving.
  assert (Hsame : snd (Redis.PTTL now key
                    (snd (Redis.ZREMRANGEBYSCORE now key 0 (now - o_windowMs opts) ks)))
                  = snd (Redis.ZREMRANGEBYSCORE now key 0 (now - o_windowMs opts) ks)).
  { unfold Redis.PTTL. destruct (Redis.live _ _ _) as [k|]; [|reflexivity].
    destruct (Redis.expire_at k); reflexivity. }
  rewrite Hsame. unfold ret. eexists. eexists. split; [reflexivity|].
  split; assumption.
Qed.

Lemma limiter_admit (options : RateLimitOptions) (req : Request) (res : Res)
  (now : Z) (rnd : string) (ks : gmap string Redis.Key) :
  let opts := spread defaultOptions options in
  let key := "rate-limit:" ++ o_keyGenerator opts req in
  let count := Z.of_nat (size (purged now (o_windowMs opts) ks key)) in
  count < o_max opts -> 0 < o_windowMs opts ->
  exists ks' hook,
    createRateLimiter options req res now rnd (serving ks)
    = (Return ({| res_headers :=
                    <["X-RateLimit-Reset" := toString (ceil_div (o_windowMs opts) 1000)]>
                      (<["X-RateLimit-Remaining" := toString (o_max opts - count - 1)]>
                         (<["X-RateLimit-Limit" := toString (o_max opts)]> (res_headers res)));
                  send := hook |},
               Next),
       serving ks')
    /\ ks' !! key
       = Some {| Redis.zset := <[member now rnd := now]> (purged now (o_windowMs opts) ks key);
                 Redis.expire_at := Some (now + ceil_div (o_windowMs opts) 1000 * 1000) |}
    /\ (forall key', key' <> key -> ks' !! key' = ks !! key').
Proof.
  intros opts key count Hroom Hwindow.
  destruct (purge_effect now (o_windowMs opts) ks key) as (Hkey & Hlive & Hother).
  unfold createRateLimiter, try_await. fold opts. fold key.
  unfold Redis.zRemRangeByScore, Redis.zCard, Redis.zAdd, Redis.expire.
  rewrite bind_getRedis_serving, bind_serving, bind_serving.
  rewrite (count_after_purge now (o_windowMs opts) ks _ key Hlive). cbn [fst snd].
  fold count. apply Z.leb_gt in Hroom. rewrite Hroom.
  rewrite bind_serving, bind_serving.
  destruct (record_effect now (o_windowMs opts) (ceil_div (o_windowMs opts) 1000) ks _ key
              (member now rnd) Hlive) as (Hrec & Hrest).
  { apply ceil_div_pos; lia. }
  unfold ret, setHeader. cbn [res_headers send].
  destruct (o_skipSuccessfulRequests opts || o_skipFailedRequests opts);
    (eexists; eexists; split; [reflexivity|]; split; [exact Hrec|];
     intros key' Hne; rewrite Hrest by exact Hne; apply Hother; exact Hne).
Qed.

Lemma recorded_lookup (done : list (Z * string)) (m : string) (s : Z) :
  recorded done !! m = Some s -> exists r, In (s, r) done /\ m = member s r.
Proof.
  unfold recorded. intros H. apply elem_of_list_to_map_2 in H.
  apply list_elem_of_In, in_map_iff in H as ([t r] & Heq & Hin).
  cbn [fst snd] in Heq. injection Heq as <- <-. eauto.
Qed.

Lemma recorded_keys (done : list (Z * string)) :
  (map (fun p : Z * string => (member (fst p) (snd p), fst p)) done).*1
  = map (fun p => member (fst p) (snd p)) done.
Proof. induction done as [|p done IH]; [reflexivity|]. cbn. f_equal. exact IH. Qed.

Lemma recorded_member (done : list (Z * string)) (t : Z) (r : string) :
  List.NoDup (map (fun p => member (fst p) (snd p)) done) -> In (t, r) done ->
  recorded done !! member t r = Some t.
Proof.
  intros Hnd Hin. unfold recorded. apply elem_of_list_to_map_1.
  - apply NoDup_ListNoDup. rewrite recorded_keys. exact Hnd.
  - apply list_elem_of_In, in_map_iff. exists (t, r). split; [reflexivity | exact Hin].
Qed.

Lemma recorded_size (done : list (Z * string)) :
  List.NoDup (map (fun p => member (fst p) (snd p)) done) ->
  size (recorded done) = length done.
Proof.
  intros Hnd. unfold recorded. rewrite map_size_list_to_map.
  - apply length_map.
  - apply NoDup_ListNoDup. rewrite recorded_keys. exact Hnd.
Qed.

(** Within the window nothing is discarded, and the purge leaves the key as
    it was. *)
Lemma purge_in_window (windowMs now : Z) (done : list (Z * string))
  (ks : gmap string Redis.Key) (key : string) :
  holds_window windowMs done ks key -> 0 < windowMs ->
  (forall t r, In (t, r) done -> now - t < windowMs) ->
  purged now windowMs ks key = recorded done
  /\ after_purge now windowMs ks key = ks !! key.
Proof.
  intros Hinv Hw Hnear. unfold purged, after_purge, window_entries.
  destruct done as [|[t r] rest].
  - cbn in Hinv. unfold Redis.live. rewrite Hinv. split; [apply map_filter_empty | reflexivity].
  - cbn [holds_window] in Hinv.
    assert (Hlive : Redis.live now ks key
                    = Some {| Redis.zset := recorded ((t, r) :: rest);
                              Redis.expire_at := Some (t + ceil_div windowMs 1000 * 1000) |}).
    { unfold Redis.live. rewrite Hinv. cbn [Redis.expire_at].
      pose proof (ceil_div_spec windowMs 1000 ltac:(lia)) as Hceil.
      pose proof (Hnear t r (or_introl eq_refl)) as Ht.
      destruct (_ <=? now) eqn:Hexp; [apply Z.leb_le in Hexp; lia | reflexivity]. }
    rewrite Hlive. cbn [Redis.zset Redis.expire_at].
    assert (Hid : filter (fun e : string * Z =>
                            Redis.in_range 0 (now - windowMs) (snd e) = false)
                         (recorded ((t, r) :: rest)) = recorded ((t, r) :: rest)).
    { apply map_filter_id. intros m s Hms. cbn [snd].
      apply recorded_lookup in Hms as (r' & Hin & _).
      specialize (Hnear s r' Hin). unfold Redis.in_range.
      apply andb_false_iff. right. apply Z.leb_gt. lia. }
    rewrite Hid. split; [reflexivity|].
    destruct (decide _) as [Hempty | _]; [|symmetry; exact Hinv].
    exfalso. unfold recorded in Hempty. cbn [map] in Hempty.
    rewrite list_to_map_cons in Hempty. exact (insert_non_empty _ _ _ Hempty).
Qed.

(** Once a recorded request is a whole window old, fewer entries remain than
    were recorded. *)
Lemma purge_after_window (windowMs late : Z) (done : list (Z * string))
  (ks : gmap string Redis.Key) (key : string) (t : Z) (r : string) :
  holds_window windowMs done ks key ->
  List.NoDup (map (fun p => member (fst p) (snd p)) done) ->
  In (t, r) done -> 0 <= t -> t + windowMs <= late ->
  (size (purged late windowMs ks key) < length done)%nat.
Proof.
  intros Hinv Hnd Hin Hpos Hold. unfold purged, window_entries.
  destruct done as [|[t0 r0] rest]; [destruct Hin|].
  cbn [holds_window] in Hinv.
  destruct (Redis.live late ks key) as [k|] eqn:Hlive.
  - apply live_Some in Hlive as [Hk _]. rewrite Hinv in Hk. injection Hk as <-.
    cbn [Redis.zset]. rewrite <- (recorded_size _ Hnd).
    apply Nat.le_lt_trans with (size (delete (member t r) (recorded ((t0, r0) :: rest)))).
    + apply map_subseteq_size. apply map_subseteq_spec. intros m s Hms.
      apply map_lookup_filter_Some in Hms as [Hms Hkeep]. cbn [snd] in Hkeep.
      rewrite lookup_delete_ne; [exact Hms|]. intros <-.
      rewrite (recorded_member _ t r Hnd Hin) in Hms. injection Hms as <-.
      unfold Redis.in_range in Hkeep. apply andb_false_iff in Hkeep.
      destruct Hkeep as [Hk | Hk]; apply Z.leb_gt in Hk; lia.
    + pose proof (map_size_delete_Some (member t r) (recorded ((t0, r0) :: rest))) as Hdel.
      rewrite Hdel by (rewrite (recorded_member _ t r Hnd Hin); eauto).
      assert (size (recorded ((t0, r0) :: rest)) <> 0)%nat; [|lia].
      rewrite recorded_size by exact Hnd. cbn. lia.
  - rewrite map_filter_empty, map_size_empty. cbn. lia.
Qed.

Lemma serve_cons (options : RateLimitOptions) (req : Request) (now : Z) (rnd : string)
  (rest : list (Z * string)) (ks ks' : gmap string Redis.Key) (o : Res * Outcome) :
  createRateLimiter options req {| res_headers := ∅; send := None |} now rnd (serving ks)
  = (Return o, serving ks') ->
  serve options req ((now, rnd) :: rest) (serving ks)
  = (o :: fst (serve options req rest (serving ks')),
     snd (serve options req rest (serving ks'))).
Proof. intros H. cbn [serve]. rewrite H. reflexivity. Qed.

(** The headers of a rejection. *)
Lemma reject_headers (limit reset : string) (res : Res) :
  let res' := setHeader "Retry-After" reset
                (setHeader "X-RateLimit-Reset" reset
                   (setHeader "X-RateLimit-Remaining" "0"
                      (setHeader "X-RateLimit-Limit" limit res))) in
  res_headers res' !! "X-RateLimit-Remaining" = Some "0"
  /\ res_headers res' !! "X-RateLimit-Limit" = Some limit
  /\ res_headers res' !! "X-RateLimit-Reset" = Some reset
  /\ res_headers res' !! "Retry-After" = Some reset.
Proof.
  cbv zeta. unfold setHeader. cbn [res_headers].
  repeat split; repeat (rewrite lookup_insert_ne by discriminate); apply lookup_insert_eq.
Qed.

(** Requests that all fall within one window: they are admitted until [max]
    of them are recorded, and the next one is rejected. *)
Lemma serve_window (options : RateLimitOptions) (req : Request) (extra : Z * string)
  (admitted done : list (Z * string)) (ks : gmap string Redis.Key) :
  let opts := spread defaultOptions options in
  let key := "rate-limit:" ++ o_keyGenerator opts req in
  0 < o_windowMs opts ->
  holds_window (o_windowMs opts) done ks key ->
  o_max opts = Z.of_nat (length done + length admitted) ->
  (forall t r t' r', In (t, r) (done ++ admitted ++ [extra]) ->
                     In (t', r') (done ++ admitted ++ [extra]) -> t - t' < o_windowMs opts) ->
  List.NoDup (map (fun p => member (fst p) (snd p)) (done ++ admitted ++ [extra])) ->
  exists front res429 resetTime ks',
    serve options req (admitted ++ [extra]) (serving ks)
    = ((front ++ [(res429, Send 429 (JObj [("message", JStr (o_message opts));
                                            ("retryAfter", JNum resetTime)]))])%list,
       serving ks')
    /\ length front = length admitted
    /\ (forall ro, In ro front -> snd ro = Next)
    /\ res_headers res429 !! "X-RateLimit-Remaining" = Some "0"
    /\ res_headers res429 !! "X-RateLimit-Limit" = Some (toString (o_max opts))
    /\ res_headers res429 !! "X-RateLimit-Reset" = Some (toString resetTime)
    /\ res_headers res429 !! "Retry-After" = Some (toString resetTime)
    /\ holds_window (o_windowMs opts) (rev admitted ++ done) ks' key.
Proof.
  intros opts key Hw. revert done ks.
  induction admitted as [|[now rnd] rest IH]; intros done ks Hinv Hmax Hspan Hnd.
  - destruct extra as [now rnd]. cbn [app] in *.
    assert (Hnd' : List.NoDup (map (fun p => member (fst p) (snd p)) done)).
    { rewrite map_app in Hnd. apply List.NoDup_app_remove_r in Hnd. exact Hnd. }
    destruct (purge_in_window (o_windowMs opts) now done ks key Hinv Hw) as (Hpurged & Hafter).
    { intros t r Hin. apply (Hspan now rnd t r); apply in_or_app; [right; left|left]; auto. }
    destruct (limiter_reject options req {| res_headers := ∅; send := None |} now rnd ks)
      as (ks' & resetTime & Hrun & Hkey & _).
    { fold opts. fold key. rewrite Hpurged, recorded_size by exact Hnd'.
      rewrite Hmax. cbn [length]. lia. }
    fold opts in Hrun, Hkey. fold key in Hkey.
    eexists []. eexists. exists resetTime, ks'.
    rewrite (serve_cons _ _ _ _ _ _ _ _ Hrun). cbn [serve fst snd app length rev].
    split; [reflexivity|]. split; [reflexivity|]. split; [intros ro []|].
    destruct (reject_headers (toString (o_max opts)) (toString resetTime)
                {| res_headers := ∅; send := None |}) as (H1 & H2 & H3 & H4).
    repeat (split; [assumption|]).
    unfold holds_window in *. destruct done as [|[t r] done']; rewrite Hkey, Hafter; exact Hinv.
  - assert (Hnd' : List.NoDup (map (fun p => member (fst p) (snd p)) done)).
    { rewrite map_app in Hnd. apply List.NoDup_app_remove_r in Hnd. exact Hnd. }
    destruct (purge_in_window (o_windowMs opts) now done ks key Hinv Hw) as (Hpurged & Hafter).
    { intros t r Hin. apply (Hspan now rnd t r); apply in_or_app; [right; left|left]; auto. }
    destruct (limiter_admit options req {| res_headers := ∅; send := None |} now rnd ks)
      as (ks' & hook & Hrun & Hkey & _).
    { fold opts. fold key. rewrite Hpurged, recorded_size by exact Hnd'.
      rewrite Hmax. cbn [length]. lia. }
    { exact Hw. }
    fold opts in Hrun, Hkey. fold key in Hkey. rewrite Hpurged in Hkey.
    assert (Hperm : Permutation (((now, rnd) :: done) ++ rest ++ [extra])
                                (done ++ ((now, rnd) :: rest) ++ [extra])).
    { cbn [app]. apply Permutation_middle. }
    destruct (IH ((now, rnd) :: done) ks') as
      (front & res429 & resetTime & ks'' & Hserve & Hlen & Hnext & H1 & H2 & H3 & H4 & Hfinal).
    + cbn [holds_window]. exact Hkey.
    + rewrite Hmax. cbn [length]. f_equal. lia.
    + intros t r t' r' Hin Hin'.
      apply (Hspan t r t' r'); eapply Permutation_in; eauto.
    + eapply Permutation_NoDup; [|exact Hnd]. apply Permutation_map. symmetry. exact Hperm.
    + eexists (_ :: front), res429, resetTime, ks''.
      cbn [app]. rewrite (serve_cons _ _ _ _ _ _ _ _ Hrun). rewrite Hserve. cbn [fst snd].
      split; [reflexivity|]. split; [cbn [length]; f_equal; exact Hlen|].
      split; [intros ro [<- | Hin]; [reflexivity | apply Hnext; exact Hin]|].
      repeat (split; [assumption|]).
      cbn [rev]. rewrite <- app_assoc. exact Hfinal.
Qed.

(** C7: what the limiter does with one request, on a cache that answers:
    it discards the entries scored from 0 to [now - windowMs] and counts the
    rest; with [count >= max] it answers 429 with [X-RateLimit-Remaining: 0],
    the limit, the reset and [Retry-After], and records nothing; otherwise it
    records the request under the current instant, sets the key's expiry to
    the window (in whole seconds), sets the three informational headers and
    calls [next()].  Hence, for requests of one key that fall within one
    window, the first [max] are admitted and the next is rejected, and a
    request arriving when an admitted one is a whole window old is admitted. *)
Theorem rate_limiter_sliding_window
  (options : RateLimitOptions) (req : Request) (res : Res) (now : Z) (rnd : string)
  (ks : gmap string Redis.Key)
  (admitted : list (Z * string)) (extra : Z * string) (late : Z) (rnd' : string)
  (ks0 : gmap string Redis.Key) :
  let opts := spread defaultOptions options in
  let key := "rate-limit:" ++ o_keyGenerator opts req in
  let count := Z.of_nat (size (purged now (o_windowMs opts) ks key)) in
  let blank := {| res_headers := ∅; send := None |} in
  0 < o_windowMs opts ->
  (o_max opts <= count ->
   exists ks' resetTime res',
     createRateLimiter options req res now rnd (serving ks)
     = (Return (res', Send 429 (JObj [("message", JStr (o_message opts));
                                      ("retryAfter", JNum resetTime)])),
        serving ks')
     /\ res_headers res' !! "X-RateLimit-Remaining" = Some "0"
     /\ res_headers res' !! "X-RateLimit-Limit" = Some (toString (o_max opts))
     /\ res_headers res' !! "X-RateLimit-Reset" = Some (toString resetTime)
     /\ res_headers res' !! "Retry-After" = Some (toString resetTime)
     /\ ks' !! key = after_purge now (o_windowMs opts) ks key)
  /\ (count < o_max opts ->
      exists ks' res',
        createRateLimiter options req res now rnd (serving ks)
        = (Return (res', Next), serving ks')
        /\ res_headers res' !! "X-RateLimit-Limit" = Some (toString (o_max opts))
        /\ res_headers res' !! "X-RateLimit-Remaining"
           = Some (toString (o_max opts - count - 1))
        /\ res_headers res' !! "X-RateLimit-Reset"
           = Some (toString (ceil_div (o_windowMs opts) 1000))
        /\ ks' !! key
           = Some {| Redis.zset :=
                       <[member now rnd := now]> (purged now (o_windowMs opts) ks key);
                     Redis.expire_at :=
                       Some (now + ceil_div (o_windowMs opts) 1000 * 1000) |})
  /\ (o_max opts = Z.of_nat (length admitted) ->
      ks0 !! key = None ->
      (forall t r t' r', In (t, r) (admitted ++ [extra]) -> In (t', r') (admitted ++ [extra]) ->
                         t - t' < o_windowMs opts) ->
      List.NoDup (map (fun p => member (fst p) (snd p)) (admitted ++ [extra])) ->
      exists front res429 resetTime,
        fst (serve options req (admitted ++ [extra]) (serving ks0))
        = (front ++ [(res429, Send 429 (JObj [("message", JStr (o_message opts));
                                               ("retryAfter", JNum resetTime)]))])%list
        /\ length front = length admitted
        /\ (forall ro, In ro front -> snd ro = Next)
        /\ res_headers res429 !! "X-RateLimit-Remaining" = Some "0"
        /\ ((exists t r, In (t, r) admitted /\ 0 <= t /\ t + o_windowMs opts <= late) ->
            exists res',
              fst (createRateLimiter options req blank late rnd'
                     (snd (serve options req (admitted ++ [extra]) (serving ks0))))
              = Return (res', Next))).
Proof.
  intros opts key count blank Hw. split; [|split].
  - intros Hfull.
    destruct (limiter_reject options req res now rnd ks Hfull)
      as (ks' & resetTime & Hrun & Hkey & _).
    destruct (reject_headers (toString (o_max opts)) (toString resetTime) res)
      as (H1 & H2 & H3 & H4).
    exists ks', resetTime. eexists. split; [exact Hrun|]. tauto.
  - intros Hroom.
    destruct (limiter_admit options req res now rnd ks Hroom Hw)
      as (ks' & hook & Hrun & Hkey & _).
    exists ks'. eexists. split; [exact Hrun|]. cbn [res_headers].
    split; [|split; [|split; [|exact Hkey]]];
      repeat (rewrite lookup_insert_ne by discriminate); apply lookup_insert_eq.
  - intros Hmax Hfresh Hspan Hnd.
    destruct (serve_window options req extra admitted [] ks0 Hw)
      as (front & res429 & resetTime & ks' & Hserve & Hlen & Hnext & H1 & _ & _ & _ & Hfinal).
    { exact Hfresh. }
    { exact Hmax. }
    { exact Hspan. }
    { exact Hnd. }
    fold opts in Hserve, Hfinal. fold key in Hfinal.
    exists front, res429, resetTime. rewrite Hserve. cbn [fst snd].
    split; [reflexivity|]. split; [exact Hlen|]. split; [exact Hnext|]. split; [exact H1|].
    intros (t & r & Hin & Hpos & Hold).
    rewrite app_nil_r in Hfinal.
    assert (Hnd' : List.NoDup (map (fun p => member (fst p) (snd p)) (rev admitted))).
    { rewrite map_app in Hnd. apply List.NoDup_app_remove_r in Hnd.
      eapply Permutation_NoDup; [|exact Hnd]. apply Permutation_map, Permutation_rev. }
    pose proof (purge_after_window (o_windowMs opts) late (rev admitted) ks' key t r
                  Hfinal Hnd' (proj1 (in_rev _ _) Hin) Hpos Hold) as Hfewer.
    rewrite length_rev in Hfewer.
    destruct (limiter_admit options req blank late rnd' ks') as (ks'' & hook & Hrun & _).
    { fold opts. fold key. rewrite Hmax. lia. }
    { exact Hw. }
    rewrite Hrun. eexists. reflexivity.
Qed.

Lemma rate_limiter_sliding_window_witness :
  exists front res429 resetTime,
    fst (serve Fixture.two_per_second Fixture.as_alice
           ([(1000, "0.11"); (1200, "0.22")] ++ [(1500, "0.33")]) (serving ∅))
    = (front ++ [(res429, Send 429 (JObj [("message",
                                             JStr "Too many requests, please try again later.");
                                           ("retryAfter", JNum resetTime)]))])%list
    /\ length front = 2%nat
    /\ (forall ro, In ro front -> snd ro = Next)
    /\ res_headers res429 !! "X-RateLimit-Remaining" = Some "0"
    /\ exists res',
         fst (createRateLimiter Fixture.two_per_second Fixture.as_alice
                {| res_headers := ∅; send := None |} 2000 "0.44"
                (snd (serve Fixture.two_per_second Fixture.as_alice
                        ([(1000, "0.11"); (1200, "0.22")] ++ [(1500, "0.33")]) (serving ∅))))
         = Return (res', Next).
Proof.
  destruct (rate_limiter_sliding_window Fixture.two_per_second Fixture.as_alice
              {| res_headers := ∅; send := None |} 0 "" ∅
              [(1000, "0.11"); (1200, "0.22")] (1500, "0.33") 2000 "0.44" ∅)
    as (_ & _ & Hwindow).
  { reflexivity. }
  destruct Hwindow as (front & res429 & resetTime & Hserve & Hlen & Hnext & Hzero & Hlate).
  - reflexivity.
  - apply lookup_empty.
  - intros t r t' r' [Ha | [Ha | [Ha | []]]] [Hb | [Hb | [Hb | []]]];
      injection Ha as <- _; injection Hb as <- _; cbn; lia.
  - vm_compute. repeat (constructor; [simpl; intuition discriminate|]). constructor.
  - exists front, res429, resetTime. repeat (split; [assumption|]).
    apply Hlate. exists 1000, "0.11". split; [left; reflexivity|]. cbn. lia.
Defined.

(** The same run, computed: two requests pass, the third within the second
    is refused, a request one second after the first passes again. *)
Example two_per_second_run :
  map snd (fst (serve Fixture.two_per_second Fixture.as_alice
                  [(1000, "0.11"); (1200, "0.22"); (1500, "0.33"); (2000, "0.44")]
                  (serving ∅)))
  = [Next; Next;
     Send 429 (JObj [("message", JStr "Too many requests, please try again later.");
                     ("retryAfter", JNum 1)]);
     Next].
Proof. vm_compute. reflexivity. Qed.

End RateLimiter.

(** ** The rate limiter: what it leaves alone, what it can answer *)

Section RateLimiterFrame.
Import RateLimit.

Lemma leaves_key_ret {A : Type} (key' : string) (a : A) : leaves_key key' (ret a).
Proof. intros c. reflexivity. Qed.

Lemma leaves_key_bind {A B : Type} (key' : string) (m : Async Redis.Client A)
  (k : A -> Async Redis.Client B) :
  leaves_key key' m -> (forall a, leaves_key key' (k a)) -> leaves_key key' (bind m k).
Proof.
  intros Hm Hk c. unfold bind. specialize (Hm c).
  destruct (m c) as [[a | e] c1]; cbn [snd] in *.
  - rewrite (Hk a c1). exact Hm.
  - exact Hm.
Qed.

Lemma leaves_key_try {A : Type} (key' : string) (body : Async Redis.Client A)
  (handler : JsError -> Async Redis.Client A) :
  leaves_key key' body -> (forall e, leaves_key key' (handler e)) ->
  leaves_key key' (try_await body handler).
Proof.
  intros Hb Hh c. unfold try_await. specialize (Hb c).
  destruct (body c) as [[a | e] c1]; cbn [snd] in *.
  - exact Hb.
  - rewrite (Hh e c1). exact Hb.
Qed.

Lemma leaves_key_command {A : Type} (key' : string)
  (run : gmap string Redis.Key -> A * gmap string Redis.Key) :
  (forall ks, snd (run ks) !! key' = ks !! key') -> leaves_key key' (Redis.command run).
Proof.
  intros Hrun c. unfold Redis.command.
  destruct (Redis.faults c) as [|[] rest]; cbn [snd Redis.keyspace]; auto.
Qed.

Lemma store_other (key key' : string) (k : Redis.Key) (ks : gmap string Redis.Key) :
  key' <> key -> Redis.store key k ks !! key' = ks !! key'.
Proof.
  intros Hne. unfold Redis.store. destruct (decide _).
  - apply lookup_delete_ne. congruence.
  - apply lookup_insert_ne. congruence.
Qed.

Lemma ZREMRANGEBYSCORE_other (now lo hi : Z) (key key' : string) (ks : gmap string Redis.Key) :
  key' <> key -> snd (Redis.ZREMRANGEBYSCORE now key lo hi ks) !! key' = ks !! key'.
Proof.
  intros Hne. unfold Redis.ZREMRANGEBYSCORE.
  destruct (Redis.live now ks key); cbn [snd].
  - apply store_other. exact Hne.
  - apply lookup_delete_ne. congruence.
Qed.

Lemma ZCARD_same (now : Z) (key : string) (ks : gmap string Redis.Key) :
  snd (Redis.ZCARD now key ks) = ks.
Proof. unfold Redis.ZCARD. destruct (Redis.live now ks key); reflexivity. Qed.

Lemma PTTL_same (now : Z) (key : string) (ks : gmap string Redis.Key) :
  snd (Redis.PTTL now key ks) = ks.
Proof.
  unfold Redis.PTTL. destruct (Redis.live now ks key) as [k|]; [|reflexivity].
  destruct (Redis.expire_at k); reflexivity.
Qed.

Lemma ZADD_other (now score : Z) (key key' value : string) (ks : gmap string Redis.Key) :
  key' <> key -> snd (Redis.ZADD now key score value ks) !! key' = ks !! key'.
Proof.
  intros Hne. unfold Redis.ZADD.
  destruct (Redis.live now ks key); cbn [snd]; apply lookup_insert_ne; congruence.
Qed.

Lemma ZREM_other (now : Z) (key key' value : string) (ks : gmap string Redis.Key) :
  key' <> key -> snd (Redis.ZREM now key value ks) !! key' = ks !! key'.
Proof.
  intros Hne. unfold Redis.ZREM.
  destruct (Redis.live now ks key); cbn [snd].
  - apply store_other. exact Hne.
  - apply lookup_delete_ne. congruence.
Qed.

Lemma EXPIRE_other (now seconds : Z) (key key' : string) (ks : gmap string Redis.Key) :
  key' <> key -> snd (Redis.EXPIRE now key seconds ks) !! key' = ks !! key'.
Proof.
  intros Hne. unfold Redis.EXPIRE.
  destruct (Redis.live now ks key); [destruct (seconds <=? 0)|]; cbn [snd];
    first [apply lookup_delete_ne; congruence | apply lookup_insert_ne; congruence].
Qed.

Lemma createRateLimiter_leaves_key
  (options : RateLimitOptions) (req : Request) (res : Res) (now : Z) (rnd : string)
  (key' : string) :
  key' <> "rate-limit:" ++ o_keyGenerator (spread defaultOptions options) req ->
  leaves_key key' (createRateLimiter options req res now rnd).
Proof.
  intros Hne. unfold createRateLimiter.
  apply leaves_key_try; [|intros e; apply leaves_key_ret].
  apply leaves_key_bind.
  { intros c. unfold Redis.getRedis. destruct (Redis.connected c); reflexivity. }
  intros _. apply leaves_key_bind.
  { apply leaves_key_command. intros ks. apply ZREMRANGEBYSCORE_other. exact Hne. }
  intros _. apply leaves_key_bind.
  { apply leaves_key_command. intros ks. rewrite ZCARD_same. reflexivity. }
  intros requestCount. destruct (_ <=? requestCount).
  - apply leaves_key_bind; [|intros ttl; apply leaves_key_ret].
    apply leaves_key_command. intros ks. rewrite PTTL_same. reflexivity.
  - apply leaves_key_bind.
    { apply leaves_key_command. intros ks. apply ZADD_other. exact Hne. }
    intros _. apply leaves_key_bind; [|intros _; apply leaves_key_ret].
    apply leaves_key_command. intros ks. apply EXPIRE_other. exact Hne.
Qed.

(** Whatever the cache does (unreachable, failing at any command, or
    answering), a request changes nothing under the keys of other callers. *)
Theorem rate_limiter_touches_only_its_key
  (options : RateLimitOptions) (req : Request) (res : Res) (now : Z) (rnd : string)
  (c : Redis.Client) (key' : string) :
  key' <> "rate-limit:" ++ o_keyGenerator (spread defaultOptions options) req ->
  Redis.keyspace (snd (createRateLimiter options req res now rnd c)) !! key'
  = Redis.keyspace c !! key'.
Proof. intros Hne. apply createRateLimiter_leaves_key. exact Hne. Qed.

Lemma rate_limiter_touches_only_its_key_witness :
  Redis.keyspace
    (snd (createRateLimiter no_options Fixture.as_alice Fixture.blank 1000 "0.5"
            (serving {[ "rate-limit:10.0.0.2" :=
                          {| Redis.zset := {[ "900:0.1" := 900 ]};
                             Redis.expire_at := Some 60900 |} ]})))
    !! "rate-limit:10.0.0.2"
  = Some {| Redis.zset := {[ "900:0.1" := 900 ]}; Redis.expire_at := Some 60900 |}.
Proof.
  rewrite (rate_limiter_touches_only_its_key no_options Fixture.as_alice Fixture.blank 1000 "0.5"
             (serving {[ "rate-limit:10.0.0.2" :=
                           {| Redis.zset := {[ "900:0.1" := 900 ]};
                              Redis.expire_at := Some 60900 |} ]}) "rate-limit:10.0.0.2").
  - apply lookup_singleton_eq.
  - vm_compute. discriminate.
Defined.

Lemma yields_ret {A : Type} (P : A -> Prop) (a : A) : P a -> yields P (ret a).
Proof. intros Ha c a' [= <-]. exact Ha. Qed.

Lemma yields_bind {A B : Type} (P : B -> Prop) (m : Async Redis.Client A)
  (k : A -> Async Redis.Client B) :
  (forall a, yields P (k a)) -> yields P (bind m k).
Proof.
  intros Hk c b. unfold bind. destruct (m c) as [[a | e] c1]; [apply Hk | discriminate].
Qed.

(** The limiter never throws, and it answers nothing but [next()] or 429
    with its message and a retry delay, whatever the cache does. *)
Theorem rate_limiter_only_next_or_429
  (options : RateLimitOptions) (req : Request) (res : Res) (now : Z) (rnd : string)
  (c : Redis.Client) :
  exists res' outcome,
    fst (createRateLimiter options req res now rnd c) = Return (res', outcome)
    /\ (outcome = Next
        \/ exists resetTime,
             outcome = Send 429
                         (JObj [("message", JStr (o_message (spread defaultOptions options)));
                                ("retryAfter", JNum resetTime)])).
Proof.
  set (P := fun ro : Res * Outcome =>
              snd ro = Next
              \/ exists resetTime,
                   snd ro = Send 429
                              (JObj [("message", JStr (o_message (spread defaultOptions options)));
                                     ("retryAfter", JNum resetTime)])).
  assert (Hbody : forall a, fst (createRateLimiter options req res now rnd c) = Return a -> P a).
  { unfold createRateLimiter, try_await.
    match goal with
    | |- context [match ?body c with _ => _ end] =>
        assert (Hy : yields P body); [|destruct (body c) as [[a0 | e] c1] eqn:Hrun]
    end.
    - apply yields_bind. intros _. apply yields_bind. intros _. apply yields_bind.
      intros requestCount. destruct (_ <=? requestCount).
      + apply yields_bind. intros ttl. apply yields_ret. right. eexists. reflexivity.
      + apply yields_bind. intros _. apply yields_bind. intros _.
        apply yields_ret. left. reflexivity.
    - intros a [= <-]. apply (Hy c). rewrite Hrun. reflexivity.
    - intros a [= <-]. left. reflexivity. }
  assert (Hret : exists a, fst (createRateLimiter options req res now rnd c) = Return a).
  { unfold createRateLimiter, try_await.
    match goal with
    | |- context [match ?body c with _ => _ end] => destruct (body c) as [[a0 | e] c1]
    end; eexists; reflexivity. }
  destruct Hret as ([res' outcome] & Hrun).
  exists res', outcome. split; [exact Hrun|]. exact (Hbody _ Hrun).
Qed.

Lemma append_inj_r (s a b : string) : s ++ a = s ++ b -> a = b.
Proof.
  induction s as [|ch s IH]; cbn; intros H; [exact H|].
  injection H as H. apply IH. exact H.
Qed.

Lemma member_inj (now : Z) (rnd rnd0 : string) : member now rnd = member now rnd0 -> rnd = rnd0.
Proof. unfold member. intros H. apply append_inj_r in H. apply (append_inj_r ":"). exact H. Qed.

(** The skip options do not un-count the request: the removal installed on
    [res.send] names a member built from a new draw of [Math.random()], so
    unless that draw repeats the one recorded for the request, the recorded
    entry is where it was, whatever the status and whatever the cache does;
    the hook never throws. *)
Theorem skip_hook_keeps_recorded_entry
  (opts : Opts) (hook : SendHook) (statusCode at_instant : Z) (rnd0 rnd : string)
  (c : Redis.Client) :
  rnd <> rnd0 ->
  fst (on_send opts hook statusCode at_instant rnd c) = Return tt
  /\ window_entries at_instant
       (Redis.keyspace (snd (on_send opts hook statusCode at_instant rnd c))) (hook_key hook)
       !! member (hook_now hook) rnd0
     = window_entries at_instant (Redis.keyspace c) (hook_key hook)
         !! member (hook_now hook) rnd0.
Proof.
  intros Hne. unfold on_send.
  destruct (_ || _); [|split; reflexivity].
  unfold try_await, bind, Redis.zRem, Redis.command, ret.
  destruct c as [conn ks fs]. cbn [Redis.faults Redis.keyspace Redis.connected].
  destruct fs as [|[] rest]; cbn [fst snd Redis.keyspace]; (split; [reflexivity|]);
    try reflexivity;
    (fold (member (hook_now hook) rnd);
     unfold Redis.ZREM, window_entries;
     destruct (Redis.live at_instant ks (hook_key hook)) as [k|] eqn:Hlive; cbn [snd];
     [ apply live_Some in Hlive as Hk; destruct Hk as [_ Hfresh];
       unfold Redis.store; cbn [Redis.zset];
       destruct (decide _) as [Hempty | Hfull];
       [ unfold Redis.live; rewrite lookup_delete_eq, lookup_empty;
         rewrite <- (lookup_delete_ne (Redis.zset k) (member (hook_now hook) rnd)
                       (member (hook_now hook) rnd0))
           by (intros Heq; apply Hne; apply (member_inj _ _ _ Heq));
         rewrite Hempty; symmetry; apply lookup_empty
       | rewrite live_insert by exact Hfresh; cbn [Redis.zset];
         apply lookup_delete_ne; intros Heq; apply Hne; apply (member_inj _ _ _ Heq) ]
     | unfold Redis.live; rewrite lookup_delete_eq; reflexivity ]).
Qed.

Lemma skip_hook_keeps_recorded_entry_witness :
  window_entries 1500
    (Redis.keyspace
       (snd (on_send (spread defaultOptions Fixture.skipping)
               {| hook_key := "rate-limit:10.0.0.1"; hook_now := 1000 |} 200 1500 "0.9"
               (serving {[ "rate-limit:10.0.0.1" :=
                             {| Redis.zset := {[ "1000:0.5" := 1000 ]};
                                Redis.expire_at := Some 61000 |} ]}))))
    "rate-limit:10.0.0.1" !! member 1000 "0.5"
  = Some 1000.
Proof.
  destruct (skip_hook_keeps_recorded_entry (spread defaultOptions Fixture.skipping)
              {| hook_key := "rate-limit:10.0.0.1"; hook_now := 1000 |} 200 1500 "0.5" "0.9"
              (serving {[ "rate-limit:10.0.0.1" :=
                            {| Redis.zset := {[ "1000:0.5" := 1000 ]};
                               Redis.expire_at := Some 61000 |} ]}))
    as [_ Hkept].
  - discriminate.
  - cbn [hook_key hook_now] in Hkept. rewrite Hkept. vm_compute. reflexivity.
Defined.

(** Only a repeated draw removes the entry. *)
Example skip_hook_same_draw :
  window_entries 1500
    (Redis.keyspace
       (snd (on_send (spread defaultOptions Fixture.skipping)
               {| hook_key := "rate-limit:10.0.0.1"; hook_now := 1000 |} 200 1500 "0.5"
               (serving {[ "rate-limit:10.0.0.1" :=
                             {| Redis.zset := {[ "1000:0.5" := 1000 ]};
                                Redis.expire_at := Some 61000 |} ]}))))
    "rate-limit:10.0.0.1" !! member 1000 "0.5"
  = None.
Proof. vm_compute. reflexivity. Qed.

Lemma auth_keys_differ (req1 req2 : Request) (e1 e2 : string) :
  ip req1 = ip req2 ->
  property "email" (body req1) = Some (JStr e1) ->
  property "email" (body req2) = Some (JStr e2) ->
  e1 <> "" -> e2 <> "" -> e1 <> e2 ->
  auth_keyGenerator req1 <> auth_keyGenerator req2.
Proof.
  intros Hip H1 H2 Hn1 Hn2 Hne Heq. apply Hne.
  unfold auth_keyGenerator, identifier in Heq. rewrite H1, H2, Hip in Heq.
  assert (Ht : forall e, e <> "" -> truthy (JStr e) = true).
  { intros e He. unfold truthy, falsy. rewrite bool_decide_eq_false_2 by exact He. reflexivity. }
  rewrite (Ht e1 Hn1), (Ht e2 Hn2) in Heq. cbn [js_string] in Heq.
  apply append_inj_r in Heq. apply (append_inj_r ":"). exact Heq.
Qed.

(** The auth limiter counts per address and submitted email: an attempt
    against one account changes nothing under the key of another account
    tried from the same address, whatever the cache does. *)
Theorem auth_limiter_counts_per_account
  (req1 req2 : Request) (e1 e2 : string) (res : Res) (now : Z) (rnd : string)
  (c : Redis.Client) :
  ip req1 = ip req2 ->
  property "email" (body req1) = Some (JStr e1) ->
  property "email" (body req2) = Some (JStr e2) ->
  e1 <> "" -> e2 <> "" -> e1 <> e2 ->
  auth_keyGenerator req1 <> auth_keyGenerator req2
  /\ Redis.keyspace (snd (authRateLimiter req1 res now rnd c))
       !! ("rate-limit:" ++ auth_keyGenerator req2)
     = Redis.keyspace c !! ("rate-limit:" ++ auth_keyGenerator req2).
Proof.
  intros Hip H1 H2 Hn1 Hn2 Hne.
  pose proof (auth_keys_differ req1 req2 e1 e2 Hip H1 H2 Hn1 Hn2 Hne) as Hkeys.
  split; [exact Hkeys|].
  unfold authRateLimiter. apply createRateLimiter_leaves_key.
  cbn [spread keyGenerator default o_keyGenerator].
  intros Heq. apply Hkeys. symmetry. apply (append_inj_r "rate-limit:"). exact Heq.
Qed.

Lemma auth_limiter_counts_per_account_witness :
  auth_keyGenerator (Fixture.attempt "alice@example.com") = "10.0.0.1:alice@example.com"
  /\ auth_keyGenerator (Fixture.attempt "alice@example.com")
     <> auth_keyGenerator (Fixture.attempt "bob@example.com")
  /\ Redis.keyspace (snd (authRateLimiter (Fixture.attempt "alice@example.com") Fixture.blank
                            1000 "0.5" Fixture.fresh_cache))
       !! ("rate-limit:" ++ auth_keyGenerator (Fixture.attempt "bob@example.com"))
     = None.
Proof.
  split; [reflexivity|].
  destruct (auth_limiter_counts_per_account
              (Fixture.attempt "alice@example.com") (Fixture.attempt "bob@example.com")
              "alice@example.com" "bob@example.com" Fixture.blank 1000 "0.5"
              Fixture.fresh_cache)
    as [Hkeys Hsame]; try reflexivity; try discriminate.
  split; [exact Hkeys|]. rewrite Hsame. apply lookup_empty.
Defined.

End RateLimiterFrame.
